(** * talk.py: interactive text-to-speech playback, embedded in Rocq

    The script [scripts/tts/talk.py] parses its command line, opens an audio
    output device, optionally opens a WAV file, and then loops: read a line,
    ask the synthesis service for audio (in one response or as a stream of
    chunks), play every chunk and mirror it into the WAV file.

    The embedding is shallow.  Python statements become terms of a small
    state-and-exception monad [M] over a [world] that holds what the script
    can observe or change: the log of calls to its collaborators, the sound
    device, the [Wave_write] object and the one local variable of [main]
    that is read on an exceptional path ([out_f]).  The collaborators the
    script does not define (standard input, the clock, the synthesis
    service, the sound device, the file system) answer through an [Env] of
    oracles indexed by call number, so a theorem quantified over [Env]
    speaks about every behaviour of the outside, failures included.

    Outside the model: floating point (clock readings are integers and the
    [.3f] formatting is kept as a structured message), asynchronous
    interruption between two statements, and the byte encoding of the WAV
    header (the header is kept as its decoded fields).

    Conventions of the model: the command line is ASCII; once a file is
    open, writing to it succeeds (what can still fail on a [Wave_write] is
    a missing header parameter); a chunk that the sound device refuses is
    not counted among the chunks played; a loop runs on fuel, and a run
    that exhausts it ends in the outcome [Running], after which no
    finalizer has run. *)

From Stdlib Require Import ZArith List String Ascii Bool Arith Lia.
From Stdlib Require Import DecimalString DecimalPos DecimalZ.
Import ListNotations.

Local Open Scope string_scope.
Local Open Scope list_scope.
Local Open Scope Z_scope.

(** ** Values *)

(** [bytes]: a Python [bytes] object, here raw PCM audio. *)
Abbreviation bytes := (list Byte.byte).

(** [len(data)] *)
Definition len (data : bytes) : Z := Z.of_nat (List.length data).

(** A local variable of a Python function: unbound until first assigned. *)
Inductive pyvar (A : Type) : Type :=
| Unbound
| Bound (a : A).
Arguments Unbound {A}.
Arguments Bound {A} a.

(** ** Exceptions *)

Inductive exn : Type :=
| EOFError
| KeyboardInterrupt
| UnboundLocalError (name : string)
| WaveError (msg : string)          (* wave.Error *)
| OSError (msg : string)
| RuntimeError (msg : string)
| RpcError (msg : string)           (* failure reported by the synthesis service *)
| DeviceError (msg : string)        (* failure reported by the audio back end *)
| SystemExit (code : Z).

(** A propagating exception with its implicit [__context__] chain: the
    exceptions that were being handled when it was raised, innermost
    first. *)
Record raised : Type := Raised { exc : exn; context : list exn }.

Definition fresh (e : exn) : raised := Raised e [].

(** [e'] was raised while [e] was being handled. *)
Definition during (e' e : raised) : raised :=
  Raised (exc e') (context e' ++ exc e :: context e).

(** A value or an exception. *)
Inductive result (A : Type) : Type :=
| Ok (a : A)
| Err (e : exn).
Arguments Ok {A} a.
Arguments Err {A} e.

(** ** Strings *)

(** [s.startswith(p)] *)
Definition startswith (s p : string) : bool := String.prefix p s.

(** [c in s] *)
Fixpoint contains (c : ascii) (s : string) : bool :=
  match s with
  | EmptyString => false
  | String d r => Ascii.eqb c d || contains c r
  end.

(** [s.split(c, 1)] when [c] occurs in [s]: the text before the first
    [c] and the text after it. *)
Fixpoint split1 (c : ascii) (s : string) : option (string * string) :=
  match s with
  | EmptyString => None
  | String d r =>
      if Ascii.eqb c d then Some (EmptyString, r)
      else match split1 c r with
           | Some (a, b) => Some (String d a, b)
           | None => None
           end
  end.

(** [s.split(c)]: the pieces between occurrences of [c]. *)
Fixpoint split (c : ascii) (s : string) : list string :=
  match s with
  | EmptyString => [EmptyString]
  | String d r =>
      if Ascii.eqb c d then EmptyString :: split c r
      else match split c r with
           | piece :: pieces => String d piece :: pieces
           | [] => [String d EmptyString]
           end
  end.

(** [s.lstrip(c)] and [s.rstrip(c)] for a single character [c]. *)
Fixpoint lstrip (c : ascii) (s : string) : string :=
  match s with
  | String d r => if Ascii.eqb c d then lstrip c r else s
  | EmptyString => s
  end.

Fixpoint rstrip (c : ascii) (s : string) : string :=
  match s with
  | EmptyString => EmptyString
  | String d r =>
      match rstrip c r with
      | EmptyString => if Ascii.eqb c d then EmptyString else String d EmptyString
      | r' => String d r'
      end
  end.

(** [sep.join(parts)] *)
Fixpoint join (sep : string) (parts : list string) : string :=
  match parts with
  | [] => EmptyString
  | [p] => p
  | p :: rest => (p ++ sep ++ join sep rest)%string
  end.

Definition is_digit (c : ascii) : bool :=
  let n := nat_of_ascii c in (48 <=? n)%nat && (n <=? 57)%nat.

Definition digit_value (c : ascii) : Z := Z.of_nat (nat_of_ascii c - 48).

(** ** Conversions used as [type=] of an option *)

(** Characters that [int] treats as blanks around the number. *)
Definition is_space (c : ascii) : bool :=
  let n := nat_of_ascii c in
  ((9 <=? n)%nat && (n <=? 13)%nat) || (n =? 32)%nat.

Fixpoint skip_spaces (s : string) : string :=
  match s with
  | String c r => if is_space c then skip_spaces r else s
  | EmptyString => s
  end.

Fixpoint all_spaces (s : string) : bool :=
  match s with
  | String c r => is_space c && all_spaces r
  | EmptyString => true
  end.

(** The digits of a decimal literal after its first digit: digits, each
    optionally preceded by one underscore, then blanks to the end. *)
Fixpoint int_digits (acc : Z) (s : string) : option Z :=
  match s with
  | EmptyString => Some acc
  | String c r =>
      if is_digit c then int_digits (10 * acc + digit_value c) r
      else if Ascii.eqb c "_" then
        match r with
        | String d r' =>
            if is_digit d then int_digits (10 * acc + digit_value d) r'
            else None
        | EmptyString => None
        end
      else if all_spaces s then Some acc
      else None
  end.

Definition int_unsigned (s : string) : option Z :=
  match s with
  | String c r => if is_digit c then int_digits (digit_value c) r else None
  | EmptyString => None
  end.

(** [int(s)] for a string of ASCII characters: [None] stands for
    [ValueError].  (Digits and blanks outside ASCII, and the limit that
    recent interpreters put on the number of digits, are not modelled.) *)
Definition int (s : string) : option Z :=
  match skip_spaces s with
  | String "-" r => option_map Z.opp (int_unsigned r)
  | String "+" r => int_unsigned r
  | s' => int_unsigned s'
  end.

(** [str(z)] for an integer [z]: its decimal digits, with a minus sign
    when it is negative. *)
Definition decimal (z : Z) : string :=
  DecimalString.NilZero.string_of_int (Z.to_int z).

(** [str(s)], the default [type] of an option: never fails. *)
Definition str (s : string) : option string := Some s.

(** ** Paths

    [pathlib.Path] on a POSIX system, as the script uses it: built from a
    string, expanded with [expanduser], turned back into a string. *)

Record Path : Type := MkPath {
  _root : string;          (* "", "/" or "//" *)
  _parts : list string     (* the components after the root *)
}.

(** The root of a path string: one slash, except that exactly two
    leading slashes are kept. *)
Definition splitroot (part : string) : string * string :=
  match part with
  | String "/" _ =>
      let stripped := lstrip "/" part in
      if (String.length part - String.length stripped =? 2)%nat
      then ("//", stripped)
      else ("/", stripped)
  | _ => ("", part)
  end.

(** The components of the text after the root: empty pieces and ["."]
    are dropped. *)
Definition components (rel : string) : list string :=
  filter (fun x => negb (String.eqb x "") && negb (String.eqb x "."))
         (split "/" rel).

(** [Path(s)] *)
Definition Path_of (s : string) : Path :=
  let '(root, rel) := splitroot s in MkPath root (components rel).

(** [str(p)] *)
Definition str_of_Path (p : Path) : string :=
  match _root p, _parts p with
  | EmptyString, [] => "."
  | root, parts => (root ++ join "/" parts)%string
  end.

(** What [expanduser] consults: [$HOME] when set, and the password
    database ([None] asks for the entry of the current user, [Some name]
    for that of [name]). *)
Record Passwd : Type := MkPasswd {
  environ_HOME : option string;
  pw_dir : option string -> option string
}.

(** [os.path.expanduser(part)] for a single component [part] that
    starts with a tilde. *)
Definition os_path_expanduser (pw : Passwd) (part : string) : string :=
  let name := match part with String _ r => r | EmptyString => EmptyString end in
  let userhome :=
    match name with
    | EmptyString =>
        match environ_HOME pw with
        | Some h => Some h
        | None => pw_dir pw None
        end
    | _ => pw_dir pw (Some name)
    end in
  match userhome with
  | None => part
  | Some h =>
      match rstrip "/" h with
      | EmptyString => "/"
      | h' => h'
      end
  end.

(** [p.expanduser()] *)
Definition expanduser (pw : Passwd) (p : Path) : result Path :=
  match _root p, _parts p with
  | EmptyString, String "~" name :: rest =>
      let homedir := os_path_expanduser pw (String "~" name) in
      match homedir with
      | String "~" _ => Err (RuntimeError "Could not determine home directory.")
      | _ =>
          let h := Path_of homedir in
          Ok (MkPath (_root h) (_parts h ++ rest))
      end
  | _, _ => Ok p
  end.

(** ** The namespace that [parse_args] returns *)

Record Namespace : Type := MkNamespace {
  voice : string;
  output : option Path;
  list_devices : bool;
  output_device : option Z;
  language_code : string;
  sample_rate_hz : Z;
  stream : bool;
  server : string;
  ssl_cert : option string;
  use_ssl : bool
}.

Definition set_voice v (n : Namespace) :=
  MkNamespace v (output n) (list_devices n) (output_device n) (language_code n)
    (sample_rate_hz n) (stream n) (server n) (ssl_cert n) (use_ssl n).
Definition set_output v (n : Namespace) :=
  MkNamespace (voice n) v (list_devices n) (output_device n) (language_code n)
    (sample_rate_hz n) (stream n) (server n) (ssl_cert n) (use_ssl n).
Definition set_list_devices v (n : Namespace) :=
  MkNamespace (voice n) (output n) v (output_device n) (language_code n)
    (sample_rate_hz n) (stream n) (server n) (ssl_cert n) (use_ssl n).
Definition set_output_device v (n : Namespace) :=
  MkNamespace (voice n) (output n) (list_devices n) v (language_code n)
    (sample_rate_hz n) (stream n) (server n) (ssl_cert n) (use_ssl n).
Definition set_language_code v (n : Namespace) :=
  MkNamespace (voice n) (output n) (list_devices n) (output_device n) v
    (sample_rate_hz n) (stream n) (server n) (ssl_cert n) (use_ssl n).
Definition set_sample_rate_hz v (n : Namespace) :=
  MkNamespace (voice n) (output n) (list_devices n) (output_device n) (language_code n)
    v (stream n) (server n) (ssl_cert n) (use_ssl n).
Definition set_stream v (n : Namespace) :=
  MkNamespace (voice n) (output n) (list_devices n) (output_device n) (language_code n)
    (sample_rate_hz n) v (server n) (ssl_cert n) (use_ssl n).
Definition set_server v (n : Namespace) :=
  MkNamespace (voice n) (output n) (list_devices n) (output_device n) (language_code n)
    (sample_rate_hz n) (stream n) v (ssl_cert n) (use_ssl n).
Definition set_ssl_cert v (n : Namespace) :=
  MkNamespace (voice n) (output n) (list_devices n) (output_device n) (language_code n)
    (sample_rate_hz n) (stream n) (server n) v (use_ssl n).
Definition set_use_ssl v (n : Namespace) :=
  MkNamespace (voice n) (output n) (list_devices n) (output_device n) (language_code n)
    (sample_rate_hz n) (stream n) (server n) (ssl_cert n) v.

(** ** The option parser of the standard library

    [argparse.ArgumentParser] for a parser that declares options only (no
    positional argument, no sub-command, no mutually exclusive group), with
    the default prefix character and abbreviations allowed.  An error
    reported by the parser ends the process with status 2, the help option
    with status 0; both are [SystemExit]. *)

Inductive Action : Type :=
| store {T : Type} (type : string -> option T) (setattr : T -> Namespace -> Namespace)
| store_true (setattr : bool -> Namespace -> Namespace)
| help.

Record Argument : Type := add_argument {
  option_strings : list string;
  action : Action
}.

(** The number of command-line strings an action takes: [nargs=None] for
    [store], [nargs=0] for the others. *)
Definition takes_argument (a : Action) : bool :=
  match a with
  | store _ _ => true
  | _ => false
  end.

Definition parser_error {A} : result A := Err (SystemExit 2).

Section Parser.

(** The declared options, in declaration order. *)
Variable arguments : list Argument.

(** [_option_string_actions], in insertion order. *)
Definition _option_string_actions : list (string * Action) :=
  flat_map (fun a => map (fun s => (s, action a)) (option_strings a)) arguments.

Fixpoint lookup (s : string) (l : list (string * Action)) : option Action :=
  match l with
  | [] => None
  | (k, a) :: rest => if String.eqb k s then Some a else lookup s rest
  end.

(** How a command-line string was read: an action (or none, for an
    unknown option), the option string that selected it, and the
    argument attached to it, if any. *)
Definition option_tuple : Type := option Action * string * option string.

Definition _get_option_tuples (option_string : string) : list option_tuple :=
  if startswith option_string "--" then
    let '(option_prefix, explicit_arg) :=
      match split1 "=" option_string with
      | Some (p, e) => (p, Some e)
      | None => (option_string, None)
      end in
    flat_map (fun '(s, a) =>
                if startswith s option_prefix
                then [(Some a, s, explicit_arg)] else [])
             _option_string_actions
  else if startswith option_string "-" then
    match option_string with
    | String c0 (String c1 rest) =>
        let short_option_prefix := String c0 (String c1 EmptyString) in
        flat_map (fun '(s, a) =>
                    if String.eqb s short_option_prefix
                    then [(Some a, s, Some rest)]
                    else if startswith s option_string
                    then [(Some a, s, None)] else [])
                 _option_string_actions
    | _ => []
    end
  else [].

(** [_negative_number_matcher]: [^-\d+$|^-\d*\.\d+$], where [$] also
    matches before a final newline. *)
Fixpoint all_digits (s : string) : bool :=
  match s with
  | EmptyString => true
  | String c r => is_digit c && all_digits r
  end.

Definition nonempty_digits (s : string) : bool :=
  negb (String.eqb s "") && all_digits s.

Definition chomp (s : string) : string :=
  match rstrip "010" s with
  | s' => if String.eqb (s' ++ String "010" EmptyString)%string s then s' else s
  end.

Definition looks_like_negative_number (s : string) : bool :=
  match chomp s with
  | String "-" r =>
      nonempty_digits r
      || match split1 "." r with
         | Some (a, b) => all_digits a && nonempty_digits b
         | None => false
         end
  | _ => false
  end.

(** [_parse_optional]: [Ok None] for a string meant as an argument,
    [Ok (Some t)] for one meant as an option. *)
Definition _parse_optional (arg_string : string) : result (option option_tuple) :=
  match arg_string with
  | EmptyString => Ok None
  | String c rest =>
      if negb (Ascii.eqb c "-") then Ok None
      else
        match lookup arg_string _option_string_actions with
        | Some a => Ok (Some (Some a, arg_string, None))
        | None =>
            if String.eqb rest "" then Ok None
            else
              let exact :=
                match split1 "=" arg_string with
                | Some (option_string, explicit_arg) =>
                    match lookup option_string _option_string_actions with
                    | Some a => Some (Some a, option_string, Some explicit_arg)
                    | None => None
                    end
                | None => None
                end in
              match exact with
              | Some t => Ok (Some t)
              | None =>
                  match _get_option_tuples arg_string with
                  | _ :: _ :: _ => parser_error
                  | [t] => Ok (Some t)
                  | [] =>
                      if looks_like_negative_number arg_string then Ok None
                      else if contains " " arg_string then Ok None
                      else Ok (Some (None, arg_string, None))
                  end
              end
        end
  end.

(** One command-line string with its reading: the letters [A], [O]
    and [-] of [arg_strings_pattern]. *)
Inductive arg : Type :=
| ArgA (arg_string : string)
| ArgO (arg_string : string) (t : option_tuple)
| ArgDashDash.

Fixpoint classify (arg_strings : list string) : result (list arg) :=
  match arg_strings with
  | [] => Ok []
  | arg_string :: rest =>
      if String.eqb arg_string "--" then Ok (ArgDashDash :: map ArgA rest)
      else
        match _parse_optional arg_string with
        | Err e => Err e
        | Ok cls =>
            match classify rest with
            | Err e => Err e
            | Ok args =>
                Ok (match cls with
                    | None => ArgA arg_string
                    | Some t => ArgO arg_string t
                    end :: args)
            end
        end
  end.

Definition arg_string_of (a : arg) : string :=
  match a with
  | ArgA s => s
  | ArgO s _ => s
  | ArgDashDash => "--"
  end.

(** [take_action]: convert the argument and update the namespace. *)
Definition take_action (a : Action) (argument : option string)
    (namespace : Namespace) : result Namespace :=
  match a, argument with
  | store type setattr, Some arg_string =>
      match type arg_string with
      | Some v => Ok (setattr v namespace)
      | None => parser_error                    (* invalid ... value *)
      end
  | store _ _, None => parser_error
  | store_true setattr, _ => Ok (setattr true namespace)
  | help, _ => Err (SystemExit 0)
  end.

Fixpoint take_actions (l : list (Action * option string))
    (namespace : Namespace) : result Namespace :=
  match l with
  | [] => Ok namespace
  | (a, v) :: rest =>
      match take_action a v namespace with
      | Ok namespace' => take_actions rest namespace'
      | Err e => Err e
      end
  end.

(** The inner loop of [consume_optional] for an option that came with
    an explicit argument: a single-dash option that takes no argument
    hands the rest of the string on as further single-dash options.
    The result lists the actions settled so far and, when the string
    ends on an option without an attached argument, that last action,
    which is matched against the command-line strings that follow. *)
Fixpoint explicit_chain (a : Action) (option_string : string)
    (explicit_arg : string) : result (list (Action * option string) * option Action) :=
  if takes_argument a then Ok ([(a, Some explicit_arg)], None)
  else
    match option_string, explicit_arg with
    | String _ (String c1 _), String c rest =>
        if Ascii.eqb c1 "-" then parser_error   (* ignored explicit argument *)
        else
          let option_string' := String "-" (String c EmptyString) in
          match lookup option_string' _option_string_actions with
          | None => parser_error
          | Some a' =>
              match rest with
              | EmptyString => Ok ([(a, None)], Some a')
              | _ =>
                  match explicit_chain a' option_string' rest with
                  | Ok (l, last) => Ok ((a, None) :: l, last)
                  | Err e => Err e
                  end
              end
          end
    | _, _ => parser_error
    end.

(** The main loop of [_parse_known_args] for a parser without
    positional arguments: strings that are not options are extras,
    options are consumed with their argument. *)
Fixpoint consume (args : list arg) (namespace : Namespace)
    (extras : list string) : result (Namespace * list string) :=
  match args with
  | [] => Ok (namespace, extras)
  | ArgO arg_string (None, _, _) :: rest =>
      consume rest namespace (extras ++ [arg_string])
  | ArgO _ (Some a, option_string, explicit_arg) :: rest =>
      let chain :=
        match explicit_arg with
        | Some e => explicit_chain a option_string e
        | None => Ok ([], Some a)
        end in
      match chain with
      | Err e => Err e
      | Ok (l, None) =>
          match take_actions l namespace with
          | Ok namespace' => consume rest namespace' extras
          | Err e => Err e
          end
      | Ok (l, Some last) =>
          if takes_argument last then
            match rest with
            | ArgA v :: rest' =>
                match take_actions (l ++ [(last, Some v)]) namespace with
                | Ok namespace' => consume rest' namespace' extras
                | Err e => Err e
                end
            | _ => parser_error                 (* expected one argument *)
            end
          else
            match take_actions (l ++ [(last, None)]) namespace with
            | Ok namespace' => consume rest namespace' extras
            | Err e => Err e
            end
      end
  | other :: rest =>
      consume rest namespace (extras ++ [arg_string_of other])
  end.

(** [parser.parse_args()] on the command line [argv], starting from
    the namespace of defaults. *)
Definition parser_parse_args (defaults : Namespace) (argv : list string)
    : result Namespace :=
  match classify argv with
  | Err e => Err e
  | Ok args =>
      match consume args defaults [] with
      | Err e => Err e
      | Ok (namespace, []) => Ok namespace
      | Ok (_, _ :: _) => parser_error          (* unrecognized arguments *)
      end
  end.

End Parser.

(** ** What the script prints *)

Inductive message : Type :=
| MsgGenerating                         (* "Generating audio for request..." *)
| MsgRequest (text : string)            (* f"  > '{text}': " *)
| MsgTimeToFirstAudio (elapsed : Z)     (* f"Time to first audio: {(stop - start):.3f}s" *)
| MsgTimeSpent (elapsed : Z).           (* f"Time spent: {(stop - start):.3f}s" *)

(** ** Requests and responses of the synthesis service *)

Record request : Type := Request {
  req_text : string;
  req_voice : string;
  req_language_code : string;
  req_sample_rate_hz : Z
}.

Record response : Type := Response { audio : bytes }.

(** What iterating [service.synthesize_online(...)] produces: the
    responses in arrival order, then normal exhaustion ([None]) or an
    exception raised by the generator. *)
Record responses : Type := Responses {
  rs_items : list response;
  rs_end : option exn
}.

(** ** Calls to collaborators, as logged *)

Inductive event : Type :=
| EvListDevices
| EvAuth (ssl_cert : option string) (use_ssl : bool) (server : string)
| EvService
| EvDeviceOpen (output_device : option Z) (nchannels sampwidth framerate : Z)
| EvDeviceClose
| EvWaveOpen (path : string)
| EvWaveClose
| EvInput (prompt : string)
| EvPrint (m : message)
| EvTime
| EvSynthesize (req : request)
| EvSynthesizeOnline (req : request)
| EvNext (item : option response)       (* the generator yields, or is exhausted *)
| EvPlay (data : bytes)                 (* sound_stream(data) *)
| EvWriteFrames (data : bytes).         (* out_f.writeframesraw(data) *)

(** ** The WAV writer of the standard library

    [wave.Wave_write] as the script uses it.  The file it writes is kept
    as the decoded header (absent until [_write_header] runs) and the
    sample bytes after it. *)

Record wav_header : Type := WavHeader {
  h_riff_length : Z;       (* 36 + data length *)
  h_format : Z;            (* WAVE_FORMAT_PCM *)
  h_nchannels : Z;
  h_framerate : Z;
  h_byterate : Z;          (* nchannels * framerate * sampwidth *)
  h_blockalign : Z;        (* nchannels * sampwidth *)
  h_bits : Z;              (* sampwidth * 8 *)
  h_datalength : Z
}.

Record wav_file : Type := WavFile {
  f_path : string;
  f_header : option wav_header;
  f_data : bytes;
  f_closed : bool
}.

(** The attributes [_file] and [_i_opened_the_file] both refer to the one
    file object that [builtins.open] returned; the object itself lives in
    the [world], and the two attributes record whether they still refer to
    it ([true]) or have been reset to [None] ([false]). *)
Record Wave_write : Type := WaveWrite {
  _file : bool;
  _i_opened_the_file : bool;
  _nchannels : Z;
  _sampwidth : Z;
  _framerate : Z;
  _nframes : Z;
  _nframeswritten : Z;
  _datawritten : Z;
  _datalength : Z;
  _headerwritten : bool
}.

(** A reference to the [Wave_write] object that [wave.open] returned.
    The script creates at most one. *)
Inductive wave_ref : Type := WaveRef.

(** ** The sound device

    Modelled from the spec: [riva_api.audio_io.SoundCallBack], a scoped
    resource wrapping a live output device "opened with the configured
    channel count (1), sample width (2 bytes), and frame rate"; calling it
    with a chunk enqueues the chunk to the device, and leaving its scope
    releases the device.  [sc_played] lists the chunks the device
    accepted, oldest first. *)
Record SoundCallBack : Type := MkSoundCallBack {
  sc_output_device : option Z;
  sc_nchannels : Z;
  sc_sampwidth : Z;
  sc_framerate : Z;
  sc_played : list bytes;
  sc_opened : bool
}.

(** ** The world *)

Record world : Type := World {
  w_log : list event;                     (* calls so far, oldest first *)
  w_device : option SoundCallBack;        (* the device, once constructed *)
  w_file : option wav_file;               (* the file builtins.open created *)
  w_wave : Wave_write;                    (* the writer object *)
  w_out_f : pyvar (option wave_ref)       (* main's local variable out_f *)
}.

Definition blank_wave : Wave_write :=
  WaveWrite false false 0 0 0 0 0 0 0 false.

Definition initial_world : world :=
  World [] None None blank_wave Unbound.

Definition set_log (l : list event) (w : world) : world :=
  World l (w_device w) (w_file w) (w_wave w) (w_out_f w).
Definition set_device (d : option SoundCallBack) (w : world) : world :=
  World (w_log w) d (w_file w) (w_wave w) (w_out_f w).
Definition set_file (f : option wav_file) (w : world) : world :=
  World (w_log w) (w_device w) f (w_wave w) (w_out_f w).
Definition set_wave (o : Wave_write) (w : world) : world :=
  World (w_log w) (w_device w) (w_file w) o (w_out_f w).
Definition set_out_f (v : pyvar (option wave_ref)) (w : world) : world :=
  World (w_log w) (w_device w) (w_file w) (w_wave w) v.

(** ** The monad of statements

    A statement maps a world to a world and one of three outcomes: it
    completed with a value, it raised, or the observation ended while it
    was still running (the [while True] loop of [main] is unrolled a given
    number of times; [Running] is what remains beyond that). *)

Inductive outcome (A : Type) : Type :=
| Return (a : A)
| Raise (e : raised)
| Running.
Arguments Return {A} a.
Arguments Raise {A} e.
Arguments Running {A}.

Definition M (A : Type) : Type := world -> outcome A * world.

Definition ret {A} (a : A) : M A := fun w => (Return a, w).

Definition bind {A B} (c : M A) (k : A -> M B) : M B :=
  fun w =>
    match c w with
    | (Return a, w1) => k a w1
    | (Raise e, w1) => (Raise e, w1)
    | (Running, w1) => (Running, w1)
    end.

Definition raise {A} (e : exn) : M A := fun w => (Raise (fresh e), w).

Definition get : M world := fun w => (Return w, w).
Definition modify (f : world -> world) : M unit := fun w => (Return tt, f w).

Declare Scope py_scope.
Delimit Scope py_scope with py.
Notation "x <- c ;; k" := (bind c (fun x => k))
  (at level 61, c at next level, right associativity) : py_scope.
Notation "c ;; k" := (bind c (fun _ => k))
  (at level 61, right associativity) : py_scope.
Local Open Scope py_scope.

(** [try: body finally: final].  The [finally] clause runs when [body]
    completes and when it raises; an exception of the clause itself
    replaces the one in flight, which becomes its context. *)
Definition try_finally {A} (body : M A) (final : M unit) : M A :=
  fun w =>
    match body w with
    | (Return a, w1) =>
        match final w1 with
        | (Return _, w2) => (Return a, w2)
        | (Raise e', w2) => (Raise e', w2)
        | (Running, w2) => (Running, w2)
        end
    | (Raise e, w1) =>
        match final w1 with
        | (Return _, w2) => (Raise e, w2)
        | (Raise e', w2) => (Raise (during e' e), w2)
        | (Running, w2) => (Running, w2)
        end
    | (Running, w1) => (Running, w1)
    end.

(** [with ctor as x: body], for a context manager whose [__enter__]
    returns the object and whose [__exit__] returns [None] (so it never
    swallows an exception). *)
Definition with_as {R A} (ctor : M R) (__exit__ : R -> M unit)
    (body : R -> M A) : M A :=
  x <- ctor ;; try_finally (body x) (__exit__ x).

(** [while True: body], unrolled [fuel] times. *)
Fixpoint while_true (fuel : nat) (body : M unit) : M unit :=
  match fuel with
  | O => fun w => (Running, w)
  | S fuel' => body ;; while_true fuel' body
  end.

(** [for x in responses: body], with the loop-carried variable [s]. *)
Definition log (e : event) : M unit :=
  modify (fun w => set_log (w_log w ++ [e]) w).

Fixpoint for_in {S} (items : list response) (stop : option exn)
    (s : S) (body : response -> S -> M S) : M S :=
  match items with
  | [] =>
      match stop with
      | None => log (EvNext None) ;; ret s
      | Some e => raise e
      end
  | resp :: rest =>
      log (EvNext (Some resp)) ;;
      s' <- body resp s ;;
      for_in rest stop s' body
  end.

(** ** The script: argument resolution *)

(** Modelled from the spec: [riva_api.argparse_utils.add_connection_argparse_parameters],
    which adds the "standard connection parameters (server address, TLS
    certificate, use-TLS flag)".  The option strings are those whose
    attributes [main] reads ([args.server], [args.ssl_cert],
    [args.use_ssl]); the default server address is not given by the
    script and stays a parameter. *)
Definition add_connection_argparse_parameters (parser : list Argument)
    : list Argument :=
  parser ++
  [ add_argument ["--server"] (store str set_server);
    add_argument ["--ssl-cert"] (store str (fun v => set_ssl_cert (Some v)));
    add_argument ["--use-ssl"] (store_true set_use_ssl) ].

(** The parser that [parse_args] builds.  [ArgumentParser] itself
    declares the help option first. *)
Definition parser : list Argument :=
  add_connection_argparse_parameters
    [ add_argument ["-h"; "--help"] help;
      add_argument ["--voice"] (store str set_voice);
      add_argument ["-o"; "--output"]
        (store (fun s => Some (Path_of s)) (fun p => set_output (Some p)));
      add_argument ["--list-devices"] (store_true set_list_devices);
      add_argument ["--output-device"]
        (store int (fun v => set_output_device (Some v)));
      add_argument ["--language-code"] (store str set_language_code);
      add_argument ["--sample-rate-hz"] (store int set_sample_rate_hz);
      add_argument ["--stream"] (store_true set_stream) ].

(** The defaults of the declared options. *)
Definition defaults (default_server : string) : Namespace :=
  {| voice := "English-US-Female-1";
     output := None;
     list_devices := false;
     output_device := None;
     language_code := "en-US";
     sample_rate_hz := 44100;
     stream := false;
     server := default_server;
     ssl_cert := None;
     use_ssl := false |}.

(** [parse_args()], as a function of what it reads from the process:
    the command line after the program name and the home directories. *)
Definition parse_args (default_server : string) (pw : Passwd)
    (argv : list string) : result Namespace :=
  match parser_parse_args parser (defaults default_server) argv with
  | Err e => Err e
  | Ok args =>
      match output args with
      | Some p =>
          match expanduser pw p with
          | Ok p' => Ok (set_output (Some p') args)
          | Err e => Err e
          end
      | None => Ok args
      end
  end.

(** ** The outside of the script

    Every answer the script gets from outside: the command line, the
    home directories, whether each collaborator call fails, and what the
    calls that return data return.  Calls of one kind are numbered from 0
    in the order the script makes them. *)
Record Env : Type := MkEnv {
  sys_argv : list string;                             (* sys.argv[1:] *)
  passwd : Passwd;
  list_devices_raises : option exn;
  Auth_raises : option exn;
  device_open_raises : option exn;
  wave_open_raises : option exn;
  stdin : nat -> result string;                       (* Err EOFError at end of input *)
  clock : nat -> Z;
  synthesize_reply : nat -> request -> result response;
  synthesize_online_reply : nat -> request -> responses;
  play_raises : nat -> bytes -> option exn
}.

Definition is_input (e : event) : bool :=
  match e with EvInput _ => true | _ => false end.
Definition is_time (e : event) : bool :=
  match e with EvTime => true | _ => false end.
Definition is_request (e : event) : bool :=
  match e with EvSynthesize _ | EvSynthesizeOnline _ => true | _ => false end.
Definition is_play (e : event) : bool :=
  match e with EvPlay _ => true | _ => false end.

(** How many calls of a kind the log holds. *)
Definition calls (kind : event -> bool) : M nat :=
  w <- get ;; ret (List.length (filter kind (w_log w))).

Definition lift {A} (r : result A) : M A :=
  match r with
  | Ok a => ret a
  | Err e => raise e
  end.

Definition raise_if (failure : option exn) : M unit :=
  match failure with
  | Some e => raise e
  | None => ret tt
  end.

(** *** [wave.Wave_write] *)

Section Wave.

Definition self_wave : M Wave_write := w <- get ;; ret (w_wave w).

Definition update_wave (f : Wave_write -> Wave_write) : M unit :=
  modify (fun w => set_wave (f (w_wave w)) w).

Definition update_file (f : wav_file -> wav_file) : M unit :=
  modify (fun w => set_file (option_map f (w_file w)) w).

Definition with_nchannels v (o : Wave_write) : Wave_write :=
  WaveWrite (_file o) (_i_opened_the_file o) v (_sampwidth o) (_framerate o)
    (_nframes o) (_nframeswritten o) (_datawritten o) (_datalength o) (_headerwritten o).
Definition with_sampwidth v (o : Wave_write) : Wave_write :=
  WaveWrite (_file o) (_i_opened_the_file o) (_nchannels o) v (_framerate o)
    (_nframes o) (_nframeswritten o) (_datawritten o) (_datalength o) (_headerwritten o).
Definition with_framerate v (o : Wave_write) : Wave_write :=
  WaveWrite (_file o) (_i_opened_the_file o) (_nchannels o) (_sampwidth o) v
    (_nframes o) (_nframeswritten o) (_datawritten o) (_datalength o) (_headerwritten o).
Definition with_header (nframes datalength : Z) (o : Wave_write) : Wave_write :=
  WaveWrite (_file o) (_i_opened_the_file o) (_nchannels o) (_sampwidth o) (_framerate o)
    nframes (_nframeswritten o) (_datawritten o) datalength true.
Definition with_written (nframeswritten datawritten : Z) (o : Wave_write) : Wave_write :=
  WaveWrite (_file o) (_i_opened_the_file o) (_nchannels o) (_sampwidth o) (_framerate o)
    (_nframes o) nframeswritten datawritten (_datalength o) (_headerwritten o).
Definition with_datalength v (o : Wave_write) : Wave_write :=
  WaveWrite (_file o) (_i_opened_the_file o) (_nchannels o) (_sampwidth o) (_framerate o)
    (_nframes o) (_nframeswritten o) (_datawritten o) v (_headerwritten o).
Definition with_files (file i_opened : bool) (o : Wave_write) : Wave_write :=
  WaveWrite file i_opened (_nchannels o) (_sampwidth o) (_framerate o)
    (_nframes o) (_nframeswritten o) (_datawritten o) (_datalength o) (_headerwritten o).

(** [wave.open(f, 'wb')]: [builtins.open] creates the file empty, then
    [initfp] resets the writer. *)
Definition wave_open (raises : option exn) (f : string) : M wave_ref :=
  log (EvWaveOpen f) ;;
  raise_if raises ;;
  modify (fun w =>
    set_wave (WaveWrite true true 0 0 0 0 0 0 0 false)
      (set_file (Some (WavFile f None [] false)) w)) ;;
  ret WaveRef.

Definition setnchannels (self : wave_ref) (nchannels : Z) : M unit :=
  o <- self_wave ;;
  if negb (_datawritten o =? 0)
  then raise (WaveError "cannot change parameters after starting to write")
  else if nchannels <? 1 then raise (WaveError "bad # of channels")
  else update_wave (with_nchannels nchannels).

Definition setsampwidth (self : wave_ref) (sampwidth : Z) : M unit :=
  o <- self_wave ;;
  if negb (_datawritten o =? 0)
  then raise (WaveError "cannot change parameters after starting to write")
  else if (sampwidth <? 1) || (4 <? sampwidth) then raise (WaveError "bad sample width")
  else update_wave (with_sampwidth sampwidth).

Definition setframerate (self : wave_ref) (framerate : Z) : M unit :=
  o <- self_wave ;;
  if negb (_datawritten o =? 0)
  then raise (WaveError "cannot change parameters after starting to write")
  else if framerate <=? 0 then raise (WaveError "bad frame rate")
  else update_wave (with_framerate framerate).

Definition _write_header (initlength : Z) : M unit :=
  o <- self_wave ;;
  let nframes :=
    if _nframes o =? 0 then initlength / (_nchannels o * _sampwidth o)
    else _nframes o in
  let datalength := nframes * _nchannels o * _sampwidth o in
  update_file (fun f =>
    WavFile (f_path f)
      (Some {| h_riff_length := 36 + datalength;
               h_format := 1;
               h_nchannels := _nchannels o;
               h_framerate := _framerate o;
               h_byterate := _nchannels o * _framerate o * _sampwidth o;
               h_blockalign := _nchannels o * _sampwidth o;
               h_bits := _sampwidth o * 8;
               h_datalength := datalength |})
      (f_data f) (f_closed f)) ;;
  update_wave (with_header nframes datalength).

Definition _ensure_header_written (datasize : Z) : M unit :=
  o <- self_wave ;;
  if negb (_headerwritten o) then
    if _nchannels o =? 0 then raise (WaveError "# channels not specified")
    else if _sampwidth o =? 0 then raise (WaveError "sample width not specified")
    else if _framerate o =? 0 then raise (WaveError "sampling rate not specified")
    else _write_header datasize
  else ret tt.

Definition _patchheader : M unit :=
  o <- self_wave ;;
  if _datawritten o =? _datalength o then ret tt
  else
    update_file (fun f =>
      WavFile (f_path f)
        (option_map (fun h =>
           WavHeader (36 + _datawritten o) (h_format h) (h_nchannels h)
             (h_framerate h) (h_byterate h) (h_blockalign h) (h_bits h)
             (_datawritten o)) (f_header f))
        (f_data f) (f_closed f)) ;;
    update_wave (with_datalength (_datawritten o)).

(** [out_f.writeframesraw(data)], on a little-endian host. *)
Definition writeframesraw (self : wave_ref) (data : bytes) : M unit :=
  log (EvWriteFrames data) ;;
  _ensure_header_written (len data) ;;
  o <- self_wave ;;
  let nframes := len data / (_sampwidth o * _nchannels o) in
  update_file (fun f =>
    WavFile (f_path f) (f_header f) (f_data f ++ data) (f_closed f)) ;;
  update_wave (with_written (_nframeswritten o + nframes) (_datawritten o + len data)).

(** [out_f.close()] *)
Definition close (self : wave_ref) : M unit :=
  log EvWaveClose ;;
  try_finally
    (o <- self_wave ;;
     if _file o then
       _ensure_header_written 0 ;;
       o <- self_wave ;;
       (if negb (_datalength o =? _datawritten o) then _patchheader else ret tt)
     else ret tt)
    (o <- self_wave ;;
     update_wave (with_files false false) ;;
     if _i_opened_the_file o then
       update_file (fun f => WavFile (f_path f) (f_header f) (f_data f) true)
     else ret tt).

End Wave.

(** *** The other collaborators *)

Record Auth_t : Type := MkAuth {
  auth_ssl_cert : option string;
  auth_use_ssl : bool;
  auth_server : string
}.

Record SpeechSynthesisService_t : Type := MkService { service_auth : Auth_t }.

(** A reference to the [SoundCallBack] object of the [with] statement. *)
Inductive sound_ref : Type := SoundRef.

Section Script.

Variable default_server : string.
Variable E : Env.

(** [input(prompt)] *)
Definition input (prompt : string) : M string :=
  n <- calls is_input ;;
  log (EvInput prompt) ;;
  lift (stdin E n).

(** [print(...)] *)
Definition print (m : message) : M unit := log (EvPrint m).

(** [time.time()] *)
Definition time : M Z :=
  n <- calls is_time ;;
  log EvTime ;;
  ret (clock E n).

(** [list_output_devices()] *)
Definition list_output_devices : M unit :=
  log EvListDevices ;;
  raise_if (list_devices_raises E).

(** [riva_api.Auth(ssl_cert, use_ssl, server)] *)
Definition Auth (ssl_cert : option string) (use_ssl : bool) (server : string)
    : M Auth_t :=
  log (EvAuth ssl_cert use_ssl server) ;;
  raise_if (Auth_raises E) ;;
  ret (MkAuth ssl_cert use_ssl server).

(** [riva_api.SpeechSynthesisService(auth)] *)
Definition SpeechSynthesisService (auth : Auth_t) : M SpeechSynthesisService_t :=
  log EvService ;;
  ret (MkService auth).

(** [service.synthesize(text, voice, language_code, sample_rate_hz=...)] *)
Definition synthesize (service : SpeechSynthesisService_t)
    (text voice language_code : string) (sample_rate_hz : Z) : M response :=
  let req := Request text voice language_code sample_rate_hz in
  n <- calls is_request ;;
  log (EvSynthesize req) ;;
  lift (synthesize_reply E n req).

(** [service.synthesize_online(...)]: returns the generator; what it
    yields, and whether it fails, shows when it is iterated. *)
Definition synthesize_online (service : SpeechSynthesisService_t)
    (text voice language_code : string) (sample_rate_hz : Z) : M responses :=
  let req := Request text voice language_code sample_rate_hz in
  n <- calls is_request ;;
  log (EvSynthesizeOnline req) ;;
  ret (synthesize_online_reply E n req).

(** [SoundCallBack(output_device_index, nchannels=, sampwidth=, framerate=)]:
    the constructor opens the device. *)
Definition SoundCallBack_new (output_device_index : option Z)
    (nchannels sampwidth framerate : Z) : M sound_ref :=
  log (EvDeviceOpen output_device_index nchannels sampwidth framerate) ;;
  raise_if (device_open_raises E) ;;
  modify (set_device (Some
    (MkSoundCallBack output_device_index nchannels sampwidth framerate [] true))) ;;
  ret SoundRef.

(** [sound_stream(audio_data)]: the device takes the chunk, or the
    call raises and the chunk is not played. *)
Definition __call__ (self : sound_ref) (audio_data : bytes) : M unit :=
  n <- calls is_play ;;
  log (EvPlay audio_data) ;;
  raise_if (play_raises E n audio_data) ;;
  modify (fun w =>
    set_device
      (option_map (fun d =>
         MkSoundCallBack (sc_output_device d) (sc_nchannels d) (sc_sampwidth d)
           (sc_framerate d) (sc_played d ++ [audio_data]) (sc_opened d))
         (w_device w)) w).

(** Leaving the [with] block releases the device. *)
Definition __exit__ (self : sound_ref) : M unit :=
  log EvDeviceClose ;;
  modify (fun w =>
    set_device
      (option_map (fun d =>
         MkSoundCallBack (sc_output_device d) (sc_nchannels d) (sc_sampwidth d)
           (sc_framerate d) (sc_played d) false)
         (w_device w)) w).

(** *** The local variable [out_f] of [main] *)

Definition assign_out_f (v : option wave_ref) : M unit :=
  modify (set_out_f (Bound v)).

Definition read_out_f : M (option wave_ref) :=
  w <- get ;;
  match w_out_f w with
  | Bound v => ret v
  | Unbound => raise (UnboundLocalError "out_f")
  end.

(** *** [main] *)

(** The body of [for resp in responses:], with the loop-carried
    variable [first]. *)
Definition for_body (start : Z) (sound_stream : sound_ref)
    (resp : response) (first : bool) : M bool :=
  stop <- time ;;
  first <- (if first
            then print (MsgTimeToFirstAudio (stop - start)) ;; ret false
            else ret first) ;;
  __call__ sound_stream (audio resp) ;;
  out_f <- read_out_f ;;
  match out_f with
  | Some f => writeframesraw f (audio resp)
  | None => ret tt
  end ;;
  ret first.

(** The body of [while True:]. *)
Definition iteration (args : Namespace) (service : SpeechSynthesisService_t)
    (sound_stream : sound_ref) : M unit :=
  text <- input "Speak: " ;;
  print MsgGenerating ;;
  print (MsgRequest text) ;;
  start <- time ;;
  if stream args then
    responses <- synthesize_online service text (voice args) (language_code args)
                   (sample_rate_hz args) ;;
    first <- for_in (rs_items responses) (rs_end responses) true
               (for_body start sound_stream) ;;
    ret tt
  else
    resp <- synthesize service text (voice args) (language_code args)
              (sample_rate_hz args) ;;
    stop <- time ;;
    print (MsgTimeSpent (stop - start)) ;;
    __call__ sound_stream (audio resp) ;;
    out_f <- read_out_f ;;
    match out_f with
    | Some f => writeframesraw f (audio resp)
    | None => ret tt
    end.

(** The [try] block: bind [out_f], then loop. *)
Definition try_block (fuel : nat) (args : Namespace) (nchannels sampwidth : Z)
    (service : SpeechSynthesisService_t) (sound_stream : sound_ref) : M unit :=
  match output args with
  | Some path =>
      f <- wave_open (wave_open_raises E) (str_of_Path path) ;;
      assign_out_f (Some f) ;;
      setnchannels f nchannels ;;
      setsampwidth f sampwidth ;;
      setframerate f (sample_rate_hz args)
  | None => assign_out_f None
  end ;;
  while_true fuel (iteration args service sound_stream).

(** The [finally] block. *)
Definition finally_block : M unit :=
  out_f <- read_out_f ;;
  match out_f with
  | Some f => close f
  | None => ret tt
  end.

(** [main()], after [parse_args()] returned [args]. *)
Definition main_with (fuel : nat) (args : Namespace) : M unit :=
  if list_devices args then list_output_devices
  else
    auth <- Auth (ssl_cert args) (use_ssl args) (server args) ;;
    service <- SpeechSynthesisService auth ;;
    let nchannels := 1 in
    let sampwidth := 2 in
    with_as (SoundCallBack_new (output_device args) nchannels sampwidth
               (sample_rate_hz args))
      __exit__
      (fun sound_stream =>
         try_finally (try_block fuel args nchannels sampwidth service sound_stream)
           finally_block).

(** [main()], its loop unrolled [fuel] times. *)
Definition main (fuel : nat) : M unit :=
  args <- lift (parse_args default_server (passwd E) (sys_argv E)) ;;
  main_with fuel args.

(** A run of the script from a pristine process. *)
Definition run (fuel : nat) : outcome unit * world := main fuel initial_world.

End Script.

(** ** The worlds of the loop

    While [main] is inside its [while True] loop the world has a fixed
    shape, determined by the log, the chunks played so far and the
    progress of the WAV header.  [canon] builds that world. *)

Inductive wstate : Type :=
| NoHeader
| HeaderWritten (nframes nframeswritten datalength : Z).

Record loop_state : Type := LoopState {
  ls_log : list event;
  ls_played : list bytes;
  ls_ws : wstate
}.

Definition header_of (nchannels sampwidth framerate datalength : Z) : wav_header :=
  {| h_riff_length := 36 + datalength;
     h_format := 1;
     h_nchannels := nchannels;
     h_framerate := framerate;
     h_byterate := nchannels * framerate * sampwidth;
     h_blockalign := nchannels * sampwidth;
     h_bits := sampwidth * 8;
     h_datalength := datalength |}.

Definition canon_file (rate : Z) (path : string) (st : loop_state) : wav_file :=
  WavFile path
    (match ls_ws st with
     | NoHeader => None
     | HeaderWritten _ _ dl => Some (header_of 1 2 rate dl)
     end)
    (List.concat (ls_played st)) false.

Definition canon_wave (rate : Z) (st : loop_state) : Wave_write :=
  match ls_ws st with
  | NoHeader => WaveWrite true true 1 2 rate 0 0 (len (List.concat (ls_played st))) 0 false
  | HeaderWritten nf nfw dl =>
      WaveWrite true true 1 2 rate nf nfw (len (List.concat (ls_played st))) dl true
  end.

Definition canon (dev : option Z) (rate : Z) (path : option string)
    (st : loop_state) : world :=
  World (ls_log st)
    (Some (MkSoundCallBack dev 1 2 rate (ls_played st) true))
    (match path with
     | Some p => Some (canon_file rate p st)
     | None => None
     end)
    (match path with
     | Some _ => canon_wave rate st
     | None => blank_wave
     end)
    (Bound (match path with Some _ => Some WaveRef | None => None end)).

(** The world after the [finally] block ([released = false]) and after
    the release of the device that follows it ([released = true]). *)
Definition finalized (released : bool) (dev : option Z) (rate : Z)
    (path : option string) (st : loop_state) : world :=
  let data := List.concat (ls_played st) in
  let log := ls_log st ++ match path with Some _ => [EvWaveClose] | None => [] end in
  World (if released then log ++ [EvDeviceClose] else log)
    (Some (MkSoundCallBack dev 1 2 rate (ls_played st) (negb released)))
    (match path with
     | Some p => Some (WavFile p (Some (header_of 1 2 rate (len data))) data true)
     | None => None
     end)
    (match path with
     | Some _ =>
         match ls_ws st with
         | NoHeader => WaveWrite false false 1 2 rate 0 0 (len data) (len data) true
         | HeaderWritten nf nfw _ =>
             WaveWrite false false 1 2 rate nf nfw (len data) (len data) true
         end
     | None => blank_wave
     end)
    (Bound (match path with Some _ => Some WaveRef | None => None end)).

Definition closed := finalized true.

Definition log_more (new : list event) (st : loop_state) : loop_state :=
  LoopState (ls_log st ++ new) (ls_played st) (ls_ws st).

(** The header progress after [writeframesraw(data)]. *)
Definition ws_after (data : bytes) (ws : wstate) : wstate :=
  match ws with
  | NoHeader => HeaderWritten (len data / 2) (len data / 2) (len data / 2 * 2)
  | HeaderWritten nf nfw dl => HeaderWritten nf (nfw + len data / 2) dl
  end.

(** The loop state after a chunk was played and mirrored. *)
Definition played_more (path : option string) (data : bytes) (st : loop_state)
    : loop_state :=
  LoopState
    (ls_log st ++ EvPlay data
       :: match path with Some _ => [EvWriteFrames data] | None => [] end)
    (ls_played st ++ [data])
    (match path with Some _ => ws_after data (ls_ws st) | None => ls_ws st end).

(** Playing a chunk and mirroring it, as both branches of the loop body
    do. *)
Definition play_and_mirror (E : Env) (sound_stream : sound_ref) (data : bytes)
    : M unit :=
  __call__ E sound_stream data ;;
  out_f <- read_out_f ;;
  match out_f with
  | Some f => writeframesraw f data
  | None => ret tt
  end.

(** ** The loop on loop states

    What one pass of the loop body does to a loop state, as a function of
    the answers of the outside.  [iteration_canon] below shows that the
    embedded [iteration], started in the world [canon st], does exactly
    this. *)

Section Model.

Variable E : Env.
Variable path : option string.
Variable args : Namespace.

Definition count (kind : event -> bool) (st : loop_state) : nat :=
  List.length (filter kind (ls_log st)).

Fixpoint stream_from (start : Z) (first : bool) (items : list response)
    (stop : option exn) (st : loop_state) : outcome bool * loop_state :=
  match items with
  | [] =>
      match stop with
      | None => (Return first, log_more [EvNext None] st)
      | Some e => (Raise (fresh e), st)
      end
  | resp :: rest =>
      let st1 := log_more [EvNext (Some resp)] st in
      let now := clock E (count is_time st1) in
      let st2 := log_more [EvTime] st1 in
      let st3 :=
        if first then log_more [EvPrint (MsgTimeToFirstAudio (now - start))] st2
        else st2 in
      match play_raises E (count is_play st3) (audio resp) with
      | Some e => (Raise (fresh e), log_more [EvPlay (audio resp)] st3)
      | None =>
          stream_from start false rest stop (played_more path (audio resp) st3)
      end
  end.

Definition iteration_from (st : loop_state) : outcome unit * loop_state :=
  let st0 := log_more [EvInput "Speak: "] st in
  match stdin E (count is_input st) with
  | Err e => (Raise (fresh e), st0)
  | Ok text =>
      let st1 := log_more [EvPrint (MsgRequest text)]
                   (log_more [EvPrint MsgGenerating] st0) in
      let start := clock E (count is_time st1) in
      let st2 := log_more [EvTime] st1 in
      let req := Request text (voice args) (language_code args)
                   (sample_rate_hz args) in
      if stream args then
        let rs := synthesize_online_reply E (count is_request st2) req in
        match stream_from start true (rs_items rs) (rs_end rs)
                (log_more [EvSynthesizeOnline req] st2) with
        | (Return _, st') => (Return tt, st')
        | (Raise e, st') => (Raise e, st')
        | (Running, st') => (Running, st')
        end
      else
        let st3 := log_more [EvSynthesize req] st2 in
        match synthesize_reply E (count is_request st2) req with
        | Err e => (Raise (fresh e), st3)
        | Ok resp =>
            let stop := clock E (count is_time st3) in
            let st4 := log_more [EvPrint (MsgTimeSpent (stop - start))]
                         (log_more [EvTime] st3) in
            match play_raises E (count is_play st4) (audio resp) with
            | Some e => (Raise (fresh e), log_more [EvPlay (audio resp)] st4)
            | None => (Return tt, played_more path (audio resp) st4)
            end
        end
  end.

Fixpoint loop_from (fuel : nat) (st : loop_state) : outcome unit * loop_state :=
  match fuel with
  | O => (Running, st)
  | S fuel' =>
      match iteration_from st with
      | (Return _, st') => loop_from fuel' st'
      | (Raise e, st') => (Raise e, st')
      | (Running, st') => (Running, st')
      end
  end.

End Model.

(** ** From the loop to [main] *)

Section Session.

Variable E : Env.
Variable args : Namespace.

Local Abbreviation dev := (output_device args).
Local Abbreviation rate := (sample_rate_hz args).

(** The path handed to [wave.open], if any. *)
Definition wav_path : option string := option_map str_of_Path (output args).

(** What the log holds when the [with] block is entered. *)
Definition startup_log : list event :=
  [EvAuth (ssl_cert args) (use_ssl args) (server args);
   EvService;
   EvDeviceOpen dev 1 2 rate].

(** The world when the [try] block is entered. *)
Definition at_try : world :=
  World startup_log (Some (MkSoundCallBack dev 1 2 rate [] true)) None
    blank_wave Unbound.

(** The loop state when the loop is entered. *)
Definition at_loop : loop_state :=
  LoopState
    (startup_log ++ match wav_path with Some p => [EvWaveOpen p] | None => [] end)
    [] NoHeader.

(** The session: the outcome of the loop and the loop state it ends in. *)
Definition session (fuel : nat) : outcome unit * loop_state :=
  loop_from E wav_path args fuel at_loop.

(** The world that [main] ends in, from the end of the loop: nothing
    is finalized while the loop is still running. *)
Definition world_after (o : outcome unit) (st : loop_state) : world :=
  match o with
  | Running => canon dev rate wav_path st
  | _ => closed dev rate wav_path st
  end.

End Session.

(** ** Every way [main] can go *)

Definition released_device (args : Namespace) : option SoundCallBack :=
Some (MkSoundCallBack (output_device args) 1 2 (sample_rate_hz args) [] false).

(** What [main] does after [parse_args] returned [args], by cases on
    the flag [--list-devices], on the resources that cannot be set up,
    and otherwise on the session. *)
Definition main_cases (E : Env) (args : Namespace) (fuel : nat)
  : outcome unit * world :=
  if list_devices args then
    (match list_devices_raises E with
     | Some e => Raise (fresh e)
     | None => Return tt
     end,
     World [EvListDevices] None None blank_wave Unbound)
  else
    match Auth_raises E with
    | Some e =>
        (Raise (fresh e),
         World [EvAuth (ssl_cert args) (use_ssl args) (server args)]
           None None blank_wave Unbound)
    | None =>
        match device_open_raises E with
        | Some e =>
            (Raise (fresh e), World (startup_log args) None None blank_wave Unbound)
        | None =>
            match wav_path args, wave_open_raises E with
            | Some p, Some e =>
                (Raise (Raised (UnboundLocalError "out_f") [e]),
                 World (startup_log args ++ [EvWaveOpen p; EvDeviceClose])
                   (released_device args) None blank_wave Unbound)
            | Some p, None =>
                if sample_rate_hz args <=? 0 then
                  (Raise (Raised (WaveError "sampling rate not specified")
                            [WaveError "bad frame rate"]),
                   World (startup_log args
                            ++ [EvWaveOpen p; EvWaveClose; EvDeviceClose])
                     (released_device args)
                     (Some (WavFile p None [] true))
                     (WaveWrite false false 1 2 0 0 0 0 0 false)
                     (Bound (Some WaveRef)))
                else
                  let (o, st) := session E args fuel in (o, world_after args o st)
            | None, _ =>
                let (o, st) := session E args fuel in (o, world_after args o st)
            end
        end
    end.

(** ** The file mirrors the device *)

Definition is_write (e : event) : bool :=
  match e with EvWriteFrames _ => true | _ => false end.

(** An event that neither plays nor writes audio. *)
Definition quiet (e : event) : bool := negb (is_play e) && negb (is_write e).

(** [mirrored log played]: in [log], the calls that play a chunk and
    the calls that write one come in adjacent pairs, a play of a chunk
    immediately followed by the write of the same chunk, and the chunks
    of these pairs are, in order, [played]. *)
Inductive mirrored : list event -> list bytes -> Prop :=
| mirrored_nil : mirrored [] []
| mirrored_quiet log played e :
    mirrored log played -> quiet e = true -> mirrored (log ++ [e]) played
| mirrored_chunk log played data :
    mirrored log played ->
    mirrored (log ++ [EvPlay data; EvWriteFrames data]) (played ++ [data]).

(** [refused log played]: as [mirrored], except that the log goes on
    with one more play, which the device refused, and after it holds no
    further play or write. *)
Definition refused (log : list event) (played : list bytes) : Prop :=
  exists before data after,
    log = before ++ EvPlay data :: after
    /\ mirrored before played
    /\ forallb quiet after = true.

Definition mirrored_st (st : loop_state) : Prop :=
  mirrored (ls_log st) (ls_played st).

Definition refused_st (st : loop_state) : Prop :=
  refused (ls_log st) (ls_played st).

(** What holds of the loop state an outcome comes with. *)
Definition mirror_after {A} (o : outcome A) (st : loop_state) : Prop :=
  match o with
  | Raise _ => mirrored_st st \/ refused_st st
  | _ => mirrored_st st
  end.

(** The events that consuming a stream of responses can log. *)
Definition is_stream_event (e : event) : bool :=
  match e with
  | EvNext _ | EvTime | EvPrint _ | EvPlay _ | EvWriteFrames _ => true
  | _ => false
  end.

(** ** Prompts and their answers *)

(** Every prompt logged so far was answered with a line. *)
Definition answered (E : Env) (st : loop_state) : Prop :=
  forall m, (m < count is_input st)%nat -> exists line, stdin E m = Ok line.

(** The last prompt logged is the last event of the log, and [input]
    raised [e] there. *)
Definition stopped_at_prompt (E : Env) (r : raised) (st : loop_state) : Prop :=
  exists n e log,
    count is_input st = S n
    /\ stdin E n = Err e
    /\ r = fresh e
    /\ ls_log st = log ++ [EvInput "Speak: "].

(** ** Sample sessions *)

Definition chunk_a : bytes := [Byte.x01; Byte.x02; Byte.x03].
Definition chunk_b : bytes := [Byte.x04].

Definition demo_passwd : Passwd :=
  MkPasswd (Some "/home/user") (fun _ => None).

(** The lines [lines] are typed, then standard input ends.  Every
    request is answered with the four bytes of [chunk_a ++ chunk_b], in
    one piece by [synthesize] and in two by [synthesize_online].
    [wave.open] fails as [open_raises] says, the device refuses the plays
    that [refuses] names, and nothing else fails. *)
Definition sample_env (argv lines : list string) (open_raises : option exn)
    (refuses : nat -> option exn) : Env :=
  {| sys_argv := argv;
     passwd := demo_passwd;
     list_devices_raises := None;
     Auth_raises := None;
     device_open_raises := None;
     wave_open_raises := open_raises;
     stdin := fun n =>
       match nth_error lines n with
       | Some line => Ok line
       | None => Err EOFError
       end;
     clock := fun n => Z.of_nat n;
     synthesize_reply := fun _ _ => Ok (Response (chunk_a ++ chunk_b));
     synthesize_online_reply := fun _ _ =>
       Responses [Response chunk_a; Response chunk_b] None;
     play_raises := fun n _ => refuses n |}.

(** Two lines are typed and nothing fails. *)
Definition demo_env (argv : list string) : Env :=
  sample_env argv ["hello"; "world"] None (fun _ => None).

(** Standard input is empty. *)
Definition eof_env : Env := sample_env [] [] None (fun _ => None).

(** The device refuses the second chunk of the first request. *)
Definition refusing_env : Env :=
  sample_env ["--stream"; "-o"; "~/out.wav"] ["hello"; "world"] None
    (fun n => match n with
              | 1%nat => Some (DeviceError "output underflow")
              | _ => None
              end).

(** The output file cannot be created. *)
Definition unwritable_env : Env :=
  sample_env ["-o"; "/proc/out.wav"] ["hello"]
    (Some (OSError "Permission denied")) (fun _ => None).

(** ** The order of events in streaming mode *)

(** What matters of the log of a streaming iteration: a response was
    taken from the stream, the time to first audio was printed, a chunk
    was handed to the sound device. *)
Inductive stream_step : Type :=
| Consumed (resp : response)
| FirstAudio
| Played (data : bytes).

Definition step_of (e : event) : list stream_step :=
  match e with
  | EvNext (Some resp) => [Consumed resp]
  | EvPrint (MsgTimeToFirstAudio _) => [FirstAudio]
  | EvPlay data => [Played data]
  | _ => []
  end.

Definition stream_steps (log : list event) : list stream_step :=
  flat_map step_of log.

(** The steps for a stream of responses, in arrival order: each response
    is taken, then (for the first one only) the time to first audio is
    printed, then its audio is played; only then is the next one taken. *)
Fixpoint expected_steps (first : bool) (items : list response) : list stream_step :=
  match items with
  | [] => []
  | resp :: rest =>
      Consumed resp
        :: (if first then [FirstAudio] else [])
        ++ Played (audio resp) :: expected_steps false rest
  end.

(** The loop state of a streaming session, before its first prompt. *)
Definition streaming_args : Namespace :=
  set_stream true
    (set_output (Some (MkPath "/" ["home"; "user"; "out.wav"]))
       (defaults "localhost:50051")).

(** The service answers every streaming request with an empty stream. *)
Definition silent_env : Env :=
  {| sys_argv := ["--stream"; "-o"; "~/out.wav"];
     passwd := demo_passwd;
     list_devices_raises := None;
     Auth_raises := None;
     device_open_raises := None;
     wave_open_raises := None;
     stdin := fun _ => Ok "";
     clock := fun n => Z.of_nat n;
     synthesize_reply := fun _ _ => Ok (Response []);
     synthesize_online_reply := fun _ _ => Responses [] None;
     play_raises := fun _ _ => None |}.

(** Two loop states at the same prompt and request, with the same audio
    played. *)
Definition in_step (st1 st2 : loop_state) : Prop :=
  count is_input st1 = count is_input st2
  /\ count is_request st1 = count is_request st2
  /\ List.concat (ls_played st1) = List.concat (ls_played st2).

(** Sample rates of zero and of minus five. *)
Definition zero_rate_env : Env :=
  sample_env ["--sample-rate-hz"; "0"] [] None (fun _ => None).

Definition negative_rate_env : Env :=
  sample_env ["--sample-rate-hz"; "-5"; "-o"; "out.wav"] [] None (fun _ => None).

(** What every action of a parser preserves, parsing preserves. *)

(** The actions of the declared options. *)
Definition declared (arguments : list Argument) (a : Action) : Prop :=
  In a (map snd (_option_string_actions arguments)).

Definition declared_arg (arguments : list Argument) (x : arg) : Prop :=
  match x with
  | ArgO _ (Some a, _, _) => declared arguments a
  | _ => True
  end.

(** The output path of a namespace is absent or was built from a string
    of the command line. *)
Definition output_from_text (ns : Namespace) : Prop :=
  forall p, output ns = Some p -> exists raw, p = Path_of raw.

(** ** Vocabulary of the further properties *)

(** ** The events of the loop *)

(** What one pass of the loop body may log, in a session with the
    arguments [args] whose output goes to [path]: the prompt, the prints
    and clock readings, the request of the mode in force with the
    configured voice, language and rate, and plays, each mirrored by a
    write only when there is an output file. *)
Definition loop_event (args : Namespace) (path : option string) (e : event) : Prop :=
  match e with
  | EvInput prompt => prompt = "Speak: "
  | EvPrint MsgGenerating | EvPrint (MsgRequest _) | EvTime | EvPlay _ => True
  | EvPrint (MsgTimeToFirstAudio _) | EvNext _ => stream args = true
  | EvPrint (MsgTimeSpent _) => stream args = false
  | EvSynthesize req =>
      stream args = false
      /\ req_voice req = voice args
      /\ req_language_code req = language_code args
      /\ req_sample_rate_hz req = sample_rate_hz args
  | EvSynthesizeOnline req =>
      stream args = true
      /\ req_voice req = voice args
      /\ req_language_code req = language_code args
      /\ req_sample_rate_hz req = sample_rate_hz args
  | EvWriteFrames _ => path <> None
  | _ => False
  end.

(** The requests sent to the service, oldest first. *)
Definition requests (log : list event) : list request :=
  flat_map (fun e =>
              match e with
              | EvSynthesize req | EvSynthesizeOnline req => [req]
              | _ => []
              end) log.

(** The events of a log that touch the output file. *)
Definition is_file_event (e : event) : bool :=
  match e with
  | EvWaveOpen _ | EvWriteFrames _ | EvWaveClose => true
  | _ => false
  end.

(** The latencies that a log reports. *)
Definition latencies (log : list event) : list Z :=
  flat_map (fun e =>
              match e with
              | EvPrint (MsgTimeToFirstAudio v) | EvPrint (MsgTimeSpent v) => [v]
              | _ => []
              end) log.

(** The events that only the batch branch of the loop body logs, and
    those that only the streaming branch logs. *)
Definition batch_event (e : event) : bool :=
  match e with
  | EvSynthesize _ | EvPrint (MsgTimeSpent _) => true
  | _ => false
  end.

Definition streaming_event (e : event) : bool :=
  match e with
  | EvSynthesizeOnline _ | EvNext _ | EvPrint (MsgTimeToFirstAudio _) => true
  | _ => false
  end.

(** Two lines are typed to a session started with [--list-devices]. *)
Definition listing_env : Env := demo_env ["--list-devices"].

(** The authentication object cannot be created; the device cannot be
    opened. *)
Definition no_auth_env : Env :=
  {| sys_argv := ["-o"; "out.wav"];
     passwd := demo_passwd;
     list_devices_raises := None;
     Auth_raises := Some (OSError "No such file or directory");
     device_open_raises := None;
     wave_open_raises := None;
     stdin := fun _ => Ok "hello";
     clock := fun n => Z.of_nat n;
     synthesize_reply := fun _ _ => Ok (Response chunk_a);
     synthesize_online_reply := fun _ _ => Responses [Response chunk_a] None;
     play_raises := fun _ _ => None |}.

Definition no_device_env : Env :=
  {| sys_argv := ["-o"; "out.wav"];
     passwd := demo_passwd;
     list_devices_raises := None;
     Auth_raises := None;
     device_open_raises := Some (DeviceError "Invalid output device");
     wave_open_raises := None;
     stdin := fun _ => Ok "hello";
     clock := fun n => Z.of_nat n;
     synthesize_reply := fun _ _ => Ok (Response chunk_a);
     synthesize_online_reply := fun _ _ => Responses [Response chunk_a] None;
     play_raises := fun _ _ => None |}.

(** The events that release a resource. *)
Definition is_close_event (e : event) : bool :=
  match e with
  | EvWaveClose | EvDeviceClose => true
  | _ => false
  end.

(** The [n]-th request is for the [n]-th line typed, with the
    configured voice, language and rate. *)
Definition requests_ok (E : Env) (args : Namespace) (l : list request) : Prop :=
  forall n req,
    nth_error l n = Some req ->
    exists text,
      stdin E n = Ok text
      /\ req = Request text (voice args) (language_code args) (sample_rate_hz args).

(** A clock that never runs backwards. *)
Definition monotone (clock : nat -> Z) : Prop :=
  forall m n, (m <= n)%nat -> clock m <= clock n.

(** The progress of the header agrees with the chunks written: no
    header before the first chunk, and afterwards a header whose data
    length is that of the first chunk, in whole frames. *)
Definition header_of_first (st : loop_state) : Prop :=
  match ls_played st with
  | [] => ls_ws st = NoHeader
  | first :: _ =>
      exists nframes nframeswritten,
        ls_ws st = HeaderWritten nframes nframeswritten (len first / 2 * 2)
  end.

(** Lines are typed without end, each answered with the three bytes of
    [chunk_a]; the session writes to [out.wav]. *)
Definition endless_env : Env :=
  {| sys_argv := ["-o"; "out.wav"];
     passwd := demo_passwd;
     list_devices_raises := None;
     Auth_raises := None;
     device_open_raises := None;
     wave_open_raises := None;
     stdin := fun _ => Ok "hello";
     clock := fun n => Z.of_nat n;
     synthesize_reply := fun _ _ => Ok (Response chunk_a);
     synthesize_online_reply := fun _ _ => Responses [Response chunk_a] None;
     play_raises := fun _ _ => None |}.

(** The two ways the option parser ends the process: status 2 for an
    error, status 0 after printing the help. *)
Definition parser_exit (e : exn) : Prop :=
  e = SystemExit 2 \/ e = SystemExit 0.

(** A sample rate that is not a number. *)
Definition bad_rate_env : Env :=
  sample_env ["--sample-rate-hz"; "fast"; "-o"; "out.wav"] ["hello"] None
    (fun _ => None).

(** The characters that can occur in a text that [int] accepts. *)
Definition int_char (c : ascii) : bool :=
  is_digit c || is_space c || Ascii.eqb c "_" || Ascii.eqb c "+" || Ascii.eqb c "-".

Fixpoint all_chars (p : ascii -> bool) (s : string) : bool :=
  match s with
  | EmptyString => true
  | String c r => p c && all_chars p r
  end.

(** * Verification *)

(** Unfolding of the monad and of the collaborators, for goals where
    the world is given by its fields. *)
Ltac py_unfold :=
  cbv beta iota zeta delta
    [bind ret raise get modify log calls lift raise_if
     read_out_f assign_out_f writeframesraw _ensure_header_written
     _write_header _patchheader self_wave update_wave update_file
     __call__ __exit__ input print time
     canon canon_file canon_wave closed finalized log_more played_more ws_after header_of
     blank_wave
     set_log set_device set_file set_wave set_out_f
     w_log w_device w_file w_wave w_out_f
     ls_log ls_played ls_ws
     with_nchannels with_sampwidth with_framerate with_header with_written
     with_datalength with_files
     _file _i_opened_the_file _nchannels _sampwidth _framerate _nframes
     _nframeswritten _datawritten _datalength _headerwritten
     f_path f_header f_data f_closed
     sc_output_device sc_nchannels sc_sampwidth sc_framerate sc_played sc_opened
     option_map fst snd negb].

Ltac py_tests :=
  repeat first
    [ progress change (0 =? 0) with true
    | progress change (1 =? 0) with false
    | progress change (2 =? 0) with false
    | progress change (1 <? 1) with false
    | progress change (2 <? 1) with false
    | progress change (4 <? 2) with false
    | progress change (1 * 2) with 2
    | progress change (2 * 1) with 2
    | progress change (0 / 2) with 0
    | progress change (0 * 1 * 2) with 0
    | progress change (false || false) with false ];
  cbv beta iota.

Ltac py_run := repeat (progress (py_unfold; py_tests)).

Lemma len_app (a b : bytes) : len (a ++ b) = len a + len b.
Proof. unfold len. rewrite length_app. lia. Qed.

Lemma concat_snoc {A} (l : list (list A)) (x : list A) :
  List.concat (l ++ [x]) = List.concat l ++ x.
Proof. rewrite concat_app. simpl. rewrite app_nil_r. reflexivity. Qed.

(** ** Single statements on the worlds of the loop *)

Section Steps.

Variable E : Env.
Variables (dev : option Z) (rate : Z) (path : option string).
Hypothesis rate_pos : path <> None -> 0 < rate.

(** A statement that only logs keeps the shape of the world. *)
Lemma log_canon (e : event) (st : loop_state) :
  log e (canon dev rate path st) = (Return tt, canon dev rate path (log_more [e] st)).
Proof. reflexivity. Qed.

Lemma read_out_f_canon (st : loop_state) :
  read_out_f (canon dev rate path st)
  = (Return (match path with Some _ => Some WaveRef | None => None end),
     canon dev rate path st).
Proof. reflexivity. Qed.

Lemma play_and_mirror_canon (s : sound_ref) (data : bytes) (st : loop_state) :
  play_and_mirror E s data (canon dev rate path st)
  = match play_raises E (List.length (filter is_play (ls_log st))) data with
    | Some e => (Raise (fresh e), canon dev rate path (log_more [EvPlay data] st))
    | None => (Return tt, canon dev rate path (played_more path data st))
    end.
Proof.
  destruct st as [lg played ws].
  unfold play_and_mirror. py_unfold.
  destruct (play_raises E _ data) as [e|]; [reflexivity|].
  destruct path as [p|]; [|reflexivity].
  assert (Hr : (rate =? 0) = false)
    by (apply Z.eqb_neq; assert (0 < rate) by (apply rate_pos; discriminate); lia).
  destruct ws as [|nf nfw dl]; py_unfold.
  - py_tests. rewrite Hr. py_unfold. py_tests.
    rewrite concat_snoc, len_app, <- app_assoc, Z.mul_1_r, Z.add_0_l.
    reflexivity.
  - rewrite concat_snoc, len_app, <- app_assoc. reflexivity.
Qed.

End Steps.

(** ** The embedded loop follows the loop on loop states *)

Lemma bind_Return {A B} (c : M A) (k : A -> M B) w a w1 :
  c w = (Return a, w1) -> bind c k w = k a w1.
Proof. unfold bind. intros ->. reflexivity. Qed.

Lemma bind_Raise {A B} (c : M A) (k : A -> M B) w e w1 :
  c w = (Raise e, w1) -> bind c k w = (Raise e, w1).
Proof. unfold bind. intros ->. reflexivity. Qed.

Lemma bind_Running {A B} (c : M A) (k : A -> M B) w w1 :
  c w = (Running, w1) -> bind c k w = (Running, w1).
Proof. unfold bind. intros ->. reflexivity. Qed.

(** ** The statements of the loop refine the pure model *)

Section Refinement.

Variable E : Env.
Variables (dev : option Z) (rate : Z) (path : option string).
Variable args : Namespace.
Variable service : SpeechSynthesisService_t.
Variable sound_stream : sound_ref.
Hypothesis rate_pos : path <> None -> 0 < rate.

Local Abbreviation canon := (canon dev rate path).

Lemma input_canon prompt st :
  input E prompt (canon st)
  = match stdin E (count is_input st) with
    | Ok line => (Return line, canon (log_more [EvInput prompt] st))
    | Err e => (Raise (fresh e), canon (log_more [EvInput prompt] st))
    end.
Proof.
  unfold input, lift, count. py_unfold.
  destruct (stdin E _); reflexivity.
Qed.

Lemma print_canon m st :
  print m (canon st) = (Return tt, canon (log_more [EvPrint m] st)).
Proof. reflexivity. Qed.

Lemma time_canon st :
  time E (canon st)
  = (Return (clock E (count is_time st)), canon (log_more [EvTime] st)).
Proof. reflexivity. Qed.

Lemma synthesize_canon text v l r st :
  synthesize E service text v l r (canon st)
  = let req := Request text v l r in
    match synthesize_reply E (count is_request st) req with
    | Ok resp => (Return resp, canon (log_more [EvSynthesize req] st))
    | Err e => (Raise (fresh e), canon (log_more [EvSynthesize req] st))
    end.
Proof.
  unfold synthesize, lift, count. py_unfold.
  destruct (synthesize_reply E _ _); reflexivity.
Qed.

Lemma synthesize_online_canon text v l r st :
  synthesize_online E service text v l r (canon st)
  = let req := Request text v l r in
    (Return (synthesize_online_reply E (count is_request st) req),
     canon (log_more [EvSynthesizeOnline req] st)).
Proof. reflexivity. Qed.

(** The tail of both branches of the loop body. *)
Lemma play_tail_canon {A} (data : bytes) (k : M A) st :
  (__call__ E sound_stream data ;;
   out_f <- read_out_f ;;
   match out_f with
   | Some f => writeframesraw f data
   | None => ret tt
   end ;;
   k) (canon st)
  = match play_raises E (count is_play st) data with
    | Some e => (Raise (fresh e), canon (log_more [EvPlay data] st))
    | None => k (canon (played_more path data st))
    end.
Proof.
  pose proof (play_and_mirror_canon E dev rate path rate_pos sound_stream data st) as H.
  unfold play_and_mirror, count, bind in *.
  repeat match type of H with
         | context [match ?c with _ => _ end] => destruct c
         end;
    try congruence; try (rewrite H; reflexivity);
    unfold ret in *; cbv beta iota; congruence.
Qed.

Lemma for_body_canon start resp first st :
  for_body E start sound_stream resp first (canon st)
  = let st1 := log_more [EvTime] st in
    let st2 :=
      if first
      then log_more [EvPrint (MsgTimeToFirstAudio (clock E (count is_time st) - start))] st1
      else st1 in
    match play_raises E (count is_play st2) (audio resp) with
    | Some e => (Raise (fresh e), canon (log_more [EvPlay (audio resp)] st2))
    | None => (Return false, canon (played_more path (audio resp) st2))
    end.
Proof.
  unfold for_body.
  rewrite (bind_Return _ _ _ _ _ (time_canon st)).
  destruct first.
  - erewrite bind_Return.
    2:{ erewrite bind_Return by apply print_canon. reflexivity. }
    rewrite play_tail_canon. reflexivity.
  - erewrite bind_Return by reflexivity.
    rewrite play_tail_canon. cbv zeta.
    destruct (play_raises E _ _); reflexivity.
Qed.

Lemma for_in_canon start items stop : forall first st,
  for_in items stop first (for_body E start sound_stream) (canon st)
  = let (o, st') := stream_from E path start first items stop st in
    (o, canon st').
Proof.
  induction items as [|resp rest IH]; intros first st.
  - destruct stop; reflexivity.
  - cbn [for_in stream_from].
    rewrite (bind_Return _ _ _ _ _ (log_canon dev rate path _ st)).
    unfold bind at 1. rewrite for_body_canon. cbv zeta.
    destruct first;
      (destruct (play_raises E _ _); [reflexivity | apply IH]).
Qed.

Lemma iteration_canon st :
  iteration E args service sound_stream (canon st)
  = let (o, st') := iteration_from E path args st in (o, canon st').
Proof.
  unfold iteration, iteration_from.
  unfold bind at 1. rewrite input_canon.
  destruct (stdin E _) as [text|e]; [|reflexivity].
  rewrite (bind_Return _ _ _ _ _ (print_canon _ _)).
  rewrite (bind_Return _ _ _ _ _ (print_canon _ _)).
  rewrite (bind_Return _ _ _ _ _ (time_canon _)).
  destruct (stream args).
  - rewrite (bind_Return _ _ _ _ _ (synthesize_online_canon _ _ _ _ _)).
    cbv zeta. unfold bind. rewrite for_in_canon.
    destruct (stream_from _ _ _ _ _ _ _) as [[b|e|] st']; reflexivity.
  - unfold bind at 1. rewrite synthesize_canon. cbv zeta.
    destruct (synthesize_reply E _ _) as [resp|e]; [|reflexivity].
    rewrite (bind_Return _ _ _ _ _ (time_canon _)).
    rewrite (bind_Return _ _ _ _ _ (print_canon _ _)).
    etransitivity;
      [exact (play_and_mirror_canon E dev rate path rate_pos sound_stream
                (audio resp) _)|].
    unfold count. destruct (play_raises E _ _); reflexivity.
Qed.

Lemma while_true_canon fuel : forall st,
  while_true fuel (iteration E args service sound_stream) (canon st)
  = let (o, st') := loop_from E path args fuel st in (o, canon st').
Proof.
  induction fuel as [|fuel IH]; intros st; [reflexivity|].
  cbn [while_true loop_from]. unfold bind. rewrite iteration_canon.
  destruct (iteration_from E path args st) as [[u|e|] st'];
    [apply IH | reflexivity | reflexivity].
Qed.

End Refinement.

(** ** From [main] to the session *)

Section Assembly.

Variable E : Env.
Variable args : Namespace.
Variable fuel : nat.

Local Abbreviation dev := (output_device args).
Local Abbreviation rate := (sample_rate_hz args).
Local Abbreviation path := (wav_path args).

Hypothesis not_listing : list_devices args = false.
Hypothesis Auth_ok : Auth_raises E = None.
Hypothesis device_ok : device_open_raises E = None.

Lemma main_with_at_try :
  main_with E fuel args initial_world
  = try_finally
      (try_finally (try_block E fuel args 1 2 (MkService
                      (MkAuth (ssl_cert args) (use_ssl args) (server args))) SoundRef)
                   finally_block)
      (__exit__ SoundRef) (at_try args).
Proof.
  unfold main_with, with_as, Auth, SpeechSynthesisService, SoundCallBack_new.
  rewrite not_listing, Auth_ok, device_ok. reflexivity.
Qed.

Lemma finally_block_canon st :
  (path <> None -> 0 < rate) ->
  finally_block (canon dev rate path st)
  = (Return tt, finalized false dev rate path st).
Proof.
  intros Hrate. destruct st as [lg played ws].
  unfold finally_block, close, try_finally. py_unfold.
  destruct path as [p|]; [|rewrite app_nil_r; reflexivity].
  assert (Hr : (rate =? 0) = false)
    by (apply Z.eqb_neq; assert (0 < rate) by (apply Hrate; discriminate); lia).
  destruct ws as [|nf nfw dl]; py_run.
  - rewrite Hr. py_run.
    destruct (Z.eqb_spec 0 (len (List.concat played))) as [Heq|Hne]; py_run.
    + rewrite <- Heq. reflexivity.
    + destruct (Z.eqb_spec (len (List.concat played)) 0) as [Heq|_];
        [congruence|]. reflexivity.
  - destruct (Z.eqb_spec dl (len (List.concat played))) as [Heq|Hne]; py_run.
    + rewrite <- Heq. reflexivity.
    + destruct (Z.eqb_spec (len (List.concat played)) dl) as [Heq|_];
        [congruence|]. reflexivity.
Qed.

Lemma exit_finalized st :
  __exit__ SoundRef (finalized false dev rate path st)
  = (Return tt, closed dev rate path st).
Proof. reflexivity. Qed.

(** The [try] block when the WAV file, if asked for, can be set up. *)
Lemma try_block_canon service :
  (path <> None -> wave_open_raises E = None /\ 0 < rate) ->
  try_block E fuel args 1 2 service SoundRef (at_try args)
  = let (o, st) := session E args fuel in (o, canon dev rate path st).
Proof.
  intros Hok. unfold try_block, session, at_loop.
  rewrite <- (while_true_canon E dev rate path args service SoundRef);
    [|intros H; apply Hok, H].
  unfold wav_path in *. destruct (output args) as [p|]; [|reflexivity].
  destruct Hok as [Hopen Hrate]; [discriminate|].
  assert (Hr : (rate <=? 0) = false) by (apply Z.leb_gt; exact Hrate).
  unfold wave_open, setnchannels, setsampwidth, setframerate.
  rewrite Hopen. py_unfold. py_tests. rewrite Hr. reflexivity.
Qed.

(** [main] when every resource can be set up: the loop runs, and
    unless it is still running the file is finalized and the device
    released. *)
Lemma main_with_session :
  (path <> None -> wave_open_raises E = None /\ 0 < rate) ->
  main_with E fuel args initial_world
  = let (o, st) := session E args fuel in (o, world_after args o st).
Proof.
  intros Hok. rewrite main_with_at_try.
  unfold try_finally. rewrite (try_block_canon _ Hok).
  destruct (session E args fuel) as [[u|e|] st]; unfold world_after.
  - rewrite finally_block_canon by (intros H; apply Hok, H).
    rewrite exit_finalized. reflexivity.
  - rewrite finally_block_canon by (intros H; apply Hok, H).
    rewrite exit_finalized. reflexivity.
  - reflexivity.
Qed.

End Assembly.

(** ** Every path through [main] *)

Section Cases.

Variable E : Env.
Variable args : Namespace.
Variable fuel : nat.

Local Abbreviation dev := (output_device args).
Local Abbreviation rate := (sample_rate_hz args).

Lemma main_with_cases :
  main_with E fuel args initial_world = main_cases E args fuel.
Proof.
  unfold main_cases.
  destruct (list_devices args) eqn:Hlist.
  { unfold main_with, list_output_devices. rewrite Hlist.
    destruct (list_devices_raises E); reflexivity. }
  destruct (Auth_raises E) as [e|] eqn:HAuth.
  { unfold main_with, with_as, Auth. rewrite Hlist, HAuth. reflexivity. }
  destruct (device_open_raises E) as [e|] eqn:Hdev.
  { unfold main_with, with_as, Auth, SpeechSynthesisService, SoundCallBack_new.
    rewrite Hlist, HAuth, Hdev. reflexivity. }
  destruct (wav_path args) as [p|] eqn:Hpath.
  2:{ apply main_with_session; try assumption. congruence. }
  destruct (wave_open_raises E) as [e|] eqn:Hopen.
  { rewrite main_with_at_try by assumption.
    unfold wav_path in Hpath. unfold try_block, wave_open.
    destruct (output args) as [q|]; [|discriminate]. injection Hpath as ->.
    rewrite Hopen. reflexivity. }
  destruct (Z.leb_spec rate 0) as [Hle|Hgt].
  2:{ apply main_with_session; try assumption. intros _. split; [assumption|lia]. }
  rewrite main_with_at_try by assumption.
  unfold wav_path in Hpath. unfold try_block, wave_open, setnchannels,
    setsampwidth, setframerate, finally_block, close, try_finally.
  destruct (output args) as [q|]; [|discriminate]. injection Hpath as ->.
  rewrite Hopen.
  assert (Hr : (rate <=? 0) = true) by (apply Z.leb_le; exact Hle).
  py_run. rewrite Hr. py_run. reflexivity.
Qed.

End Cases.

(** ** Plays and writes alternate in the log *)

Lemma mirrored_app log played new :
  mirrored log played -> forallb quiet new = true -> mirrored (log ++ new) played.
Proof.
  intros H. revert log H.
  induction new as [|e new IH]; intros log H Hq.
  - rewrite app_nil_r. exact H.
  - cbn in Hq. apply andb_prop in Hq as [He Hnew].
    change (e :: new) with ([e] ++ new). rewrite app_assoc.
    apply IH; [apply mirrored_quiet; assumption | exact Hnew].
Qed.

Lemma refused_app log played new :
  refused log played -> forallb quiet new = true -> refused (log ++ new) played.
Proof.
  intros (before & data & after & -> & Hm & Hq) Hnew.
  exists before, data, (after ++ new). repeat split.
  - rewrite <- app_assoc. reflexivity.
  - exact Hm.
  - rewrite forallb_app, Hq, Hnew. reflexivity.
Qed.

Section Mirror.

Variable E : Env.
Variable p : string.
Variable args : Namespace.

Lemma mirrored_log_more new st :
  mirrored_st st -> forallb quiet new = true -> mirrored_st (log_more new st).
Proof. apply mirrored_app. Qed.

Lemma mirrored_played_more data st :
  mirrored_st st -> mirrored_st (played_more (Some p) data st).
Proof. apply mirrored_chunk. Qed.

Lemma refused_play data st :
  mirrored_st st -> refused_st (log_more [EvPlay data] st).
Proof.
  intros H. exists (ls_log st), data, []. repeat split. exact H.
Qed.

Lemma stream_from_mirrored start items stop : forall first st,
  mirrored_st st ->
  mirror_after (fst (stream_from E (Some p) start first items stop st))
               (snd (stream_from E (Some p) start first items stop st)).
Proof.
  induction items as [|resp rest IH]; intros first st H; cbn [stream_from].
  - destruct stop; cbn.
    + left. exact H.
    + apply mirrored_log_more; [exact H | reflexivity].
  - set (st3 := if first then _ else _).
    assert (H3 : mirrored_st st3).
    { subst st3. destruct first;
        repeat (apply mirrored_log_more; [|reflexivity]); exact H. }
    destruct (play_raises E _ _).
    + cbn. right. apply refused_play, H3.
    + apply IH, mirrored_played_more, H3.
Qed.

Lemma iteration_from_mirrored st :
  mirrored_st st ->
  mirror_after (fst (iteration_from E (Some p) args st))
               (snd (iteration_from E (Some p) args st)).
Proof.
  intros H. unfold iteration_from.
  destruct (stdin E _) as [text|e].
  2:{ cbn. left. apply mirrored_log_more; [exact H | reflexivity]. }
  destruct (stream args).
  - match goal with
    | |- context [stream_from ?E ?p ?s ?f ?i ?x ?st0] =>
        pose proof (stream_from_mirrored s i x f st0) as Hs;
        destruct (stream_from E p s f i x st0) as [[b|e|] st']
    end;
      cbn in *; apply Hs;
      repeat (apply mirrored_log_more; [|reflexivity]); exact H.
  - destruct (synthesize_reply E _ _) as [resp|e].
    2:{ cbn. left. repeat (apply mirrored_log_more; [|reflexivity]). exact H. }
    destruct (play_raises E _ _).
    + cbn. right. apply refused_play.
      repeat (apply mirrored_log_more; [|reflexivity]). exact H.
    + cbn. apply mirrored_played_more.
      repeat (apply mirrored_log_more; [|reflexivity]). exact H.
Qed.

Lemma loop_from_mirrored fuel : forall st,
  mirrored_st st ->
  mirror_after (fst (loop_from E (Some p) args fuel st))
               (snd (loop_from E (Some p) args fuel st)).
Proof.
  induction fuel as [|fuel IH]; intros st H; cbn [loop_from].
  - exact H.
  - pose proof (iteration_from_mirrored st H) as Hi.
    destruct (iteration_from E (Some p) args st) as [[u|e|] st']; cbn in Hi.
    + apply IH, Hi.
    + exact Hi.
    + exact Hi.
Qed.

End Mirror.

(** ** Counting calls in the loop *)

Lemma count_log_more kind new st :
  count kind (log_more new st)
  = (count kind st + List.length (filter kind new))%nat.
Proof. unfold count, log_more. cbn. rewrite filter_app, length_app. reflexivity. Qed.

Lemma count_played_more kind path data st :
  kind (EvPlay data) = false -> kind (EvWriteFrames data) = false ->
  count kind (played_more path data st) = count kind st.
Proof.
  intros H1 H2. unfold count, played_more. cbn. rewrite filter_app, length_app.
  destruct path; cbn; rewrite H1, ?H2; cbn; lia.
Qed.

Lemma stream_from_count E path kind start items stop :
  (forall e, is_stream_event e = true -> kind e = false) ->
  forall first st,
    count kind (snd (stream_from E path start first items stop st)) = count kind st.
Proof.
  intros Hk. induction items as [|resp rest IH]; intros first st; cbn [stream_from].
  - destruct stop; cbn [snd]; [reflexivity|].
    rewrite count_log_more. cbn. rewrite Hk by reflexivity. cbn. lia.
  - set (st3 := if first then _ else _).
    assert (H3 : count kind st3 = count kind st).
    { subst st3. destruct first; rewrite !count_log_more; cbn;
        rewrite !Hk by reflexivity; cbn; lia. }
    destruct (play_raises E _ _); cbn [snd].
    + rewrite count_log_more. cbn. rewrite Hk by reflexivity. cbn. lia.
    + rewrite IH, count_played_more; [exact H3 | apply Hk; reflexivity ..].
Qed.

Section Prompts.

Variable E : Env.
Variable path : option string.
Variable args : Namespace.

Lemma answered_same st st' :
  count is_input st' = count is_input st -> answered E st -> answered E st'.
Proof. unfold answered. intros -> H. exact H. Qed.

Lemma answered_next st st' line :
  count is_input st' = S (count is_input st) ->
  stdin E (count is_input st) = Ok line ->
  answered E st -> answered E st'.
Proof.
  unfold answered. intros -> Hline H m Hm.
  destruct (Nat.eq_dec m (count is_input st)) as [->|Hne].
  - exists line. exact Hline.
  - apply H. lia.
Qed.

Lemma stream_from_not_running start items stop : forall first st,
  fst (stream_from E path start first items stop st) <> Running.
Proof.
  induction items as [|resp rest IH]; intros first st; cbn [stream_from].
  - destruct stop; discriminate.
  - destruct (play_raises E _ _); [discriminate | apply IH].
Qed.

Lemma iteration_from_prompts st :
  answered E st ->
  count is_input (snd (iteration_from E path args st)) = S (count is_input st)
  /\ match fst (iteration_from E path args st) with
     | Return _ => answered E (snd (iteration_from E path args st))
     | Raise r =>
         answered E (snd (iteration_from E path args st))
         \/ stopped_at_prompt E r (snd (iteration_from E path args st))
     | Running => False
     end.
Proof.
  intros Ha. unfold iteration_from.
  destruct (stdin E (count is_input st)) as [text|e] eqn:Hin.
  2:{ cbn [fst snd]. rewrite count_log_more. cbn. split; [lia|].
      right. exists (count is_input st), e, (ls_log st).
      rewrite count_log_more. cbn. repeat split; [lia | exact Hin]. }
  assert (Hk : forall e, is_stream_event e = true -> is_input e = false)
    by (intros [] H; try discriminate H; reflexivity).
  assert (Hnext : forall st',
            count is_input st' = S (count is_input st) -> answered E st')
    by (intros st' Hc; eapply answered_next; [exact Hc | exact Hin | exact Ha]).
  destruct (stream args).
  - match goal with
    | |- context [stream_from ?E ?p ?s ?f ?i ?x ?st0] =>
        pose proof (stream_from_count E p is_input s i x Hk f st0) as Hc;
        pose proof (stream_from_not_running s i x f st0) as Hnr;
        destruct (stream_from E p s f i x st0) as [[b|e|] st']
    end;
      cbn [fst snd] in *; rewrite !count_log_more in Hc; cbn in Hc;
      (split; [lia|]).
    + apply Hnext. lia.
    + left. apply Hnext. lia.
    + apply Hnr. reflexivity.
  - destruct (synthesize_reply E _ _) as [resp|e].
    2:{ cbn [fst snd]. rewrite !count_log_more. cbn. split; [lia|].
        left. apply Hnext. rewrite !count_log_more. cbn. lia. }
    destruct (play_raises E _ _); cbn [fst snd];
      rewrite ?count_played_more, !count_log_more by reflexivity; cbn;
      (split; [lia|]); [left|]; apply Hnext;
      rewrite ?count_played_more, !count_log_more by reflexivity; cbn; lia.
Qed.

Lemma loop_from_prompts fuel : forall st,
  answered E st ->
  match fst (loop_from E path args fuel st) with
  | Return _ => False
  | Raise r =>
      answered E (snd (loop_from E path args fuel st))
      \/ stopped_at_prompt E r (snd (loop_from E path args fuel st))
  | Running =>
      answered E (snd (loop_from E path args fuel st))
      /\ count is_input (snd (loop_from E path args fuel st))
         = (count is_input st + fuel)%nat
  end.
Proof.
  induction fuel as [|fuel IH]; intros st Ha; cbn [loop_from].
  - cbn. split; [exact Ha | lia].
  - pose proof (iteration_from_prompts st Ha) as [Hc Hi].
    destruct (iteration_from E path args st) as [[u|e|] st']; cbn [fst snd] in *.
    + specialize (IH st' Hi).
      destruct (loop_from E path args fuel st') as [[u'|e'|] st''];
        cbn [fst snd] in *; [exact IH | exact IH |].
      destruct IH as [IH1 IH2]. split; [exact IH1 | lia].
    + exact Hi.
    + contradiction.
Qed.

End Prompts.

(** * The claims *)

Lemma mirrored_all_quiet log : forallb quiet log = true -> mirrored log [].
Proof. intros H. apply (mirrored_app [] [] log mirrored_nil H). Qed.

Lemma session_mirrored E args fuel p :
  wav_path args = Some p ->
  mirror_after (fst (session E args fuel)) (snd (session E args fuel)).
Proof.
  intros Hp. unfold session, at_loop. rewrite Hp.
  apply loop_from_mirrored. apply mirrored_all_quiet. reflexivity.
Qed.



Lemma run_cases default_server E fuel args :
  parse_args default_server (passwd E) (sys_argv E) = Ok args ->
  run default_server E fuel = main_cases E args fuel.
Proof.
  intros H. unfold run, main, bind, lift. rewrite H. apply main_with_cases.
Qed.

Lemma run_parse_error default_server E fuel e :
  parse_args default_server (passwd E) (sys_argv E) = Err e ->
  run default_server E fuel = (Raise (fresh e), initial_world).
Proof. intros H. unfold run, main, bind, lift. rewrite H. reflexivity. Qed.

Lemma count_inputs_closing log path :
  List.length (filter is_input
    ((log ++ match path : option string with Some _ => [EvWaveClose] | None => [] end)
       ++ [EvDeviceClose]))
  = List.length (filter is_input log).
Proof.
  rewrite !filter_app, !length_app. destruct path; cbn; lia.
Qed.

Lemma session_prompts E args fuel :
  match fst (session E args fuel) with
  | Return _ => False
  | Raise r =>
      answered E (snd (session E args fuel))
      \/ stopped_at_prompt E r (snd (session E args fuel))
  | Running =>
      answered E (snd (session E args fuel))
      /\ count is_input (snd (session E args fuel)) = fuel
  end.
Proof.
  unfold session.
  assert (H0 : count is_input (at_loop args) = 0%nat)
    by (unfold at_loop, count; cbn; destruct (wav_path args); reflexivity).
  assert (Ha : answered E (at_loop args))
    by (intros m Hm; rewrite H0 in Hm; lia).
  pose proof (loop_from_prompts E (wav_path args) args fuel _ Ha) as H.
  destruct (loop_from E (wav_path args) args fuel (at_loop args)) as [[u|e|] st];
    cbn [fst snd] in *; [exact H | exact H |].
  rewrite H0 in H. exact H.
Qed.




(** Enough unrolling reaches the end of every session whose input ends:
    once [input] raises at the prompt numbered [n], a run with more than
    [n] unrollings is no longer running. *)
Lemma run_terminates default_server E fuel n e :
  stdin E n = Err e -> (n < fuel)%nat ->
  fst (run default_server E fuel) <> Running.
Proof.
  intros Hn Hlt.
  destruct (parse_args default_server (passwd E) (sys_argv E)) as [args|e'] eqn:Hp.
  2:{ rewrite (run_parse_error _ _ _ _ Hp). discriminate. }
  rewrite (run_cases _ _ _ _ Hp). unfold main_cases.
  assert (Hs : fst (session E args fuel) <> Running).
  { pose proof (session_prompts E args fuel) as H. intros Hr. rewrite Hr in H.
    destruct H as [Ha Hc]. destruct (Ha n) as [line Hline]; [lia | congruence]. }
  destruct (list_devices args).
  { destruct (list_devices_raises E); discriminate. }
  destruct (Auth_raises E); [discriminate|].
  destruct (device_open_raises E); [discriminate|].
  destruct (wav_path args).
  2:{ destruct (session E args fuel) as [o st]. exact Hs. }
  destruct (wave_open_raises E); [discriminate|].
  destruct (sample_rate_hz args <=? 0); [discriminate|].
  destruct (session E args fuel) as [o st]. exact Hs.
Qed.



(** C5. With [--list-devices] set, the whole run is the one call that
    lists the output devices: no [Auth], no synthesis service, no audio
    device, no output file and no prompt. *)
Theorem list_devices_only (default_server : string) (E : Env) (fuel : nat)
    (args : Namespace) :
  parse_args default_server (passwd E) (sys_argv E) = Ok args ->
  list_devices args = true ->
  run default_server E fuel
  = (match list_devices_raises E with
     | Some e => Raise (fresh e)
     | None => Return tt
     end,
     World [EvListDevices] None None blank_wave Unbound).
Proof.
  intros Hp Hl. rewrite (run_cases _ _ _ _ Hp). unfold main_cases.
  rewrite Hl. reflexivity.
Qed.

Lemma list_devices_only_witness :
  let E := demo_env ["--stream"; "--list-devices"; "-o"; "x.wav"] in
  exists args,
    (parse_args "localhost:50051" (passwd E) (sys_argv E) = Ok args
     /\ list_devices args = true)
    /\ run "localhost:50051" E 7
       = (Return tt, World [EvListDevices] None None blank_wave Unbound).
Proof.
  cbv zeta. eexists. split.
  - split; [vm_compute; reflexivity | reflexivity].
  - apply (list_devices_only "localhost:50051"
             (demo_env ["--stream"; "--list-devices"; "-o"; "x.wav"]) 7
             (set_output (Some (MkPath "" ["x.wav"]))
                (set_list_devices true (set_stream true (defaults "localhost:50051")))));
      vm_compute; reflexivity.
Defined.

(** C9. If an output file is asked for and [wave.open] raises, the
    [finally] block reads [out_f] before it was ever assigned: the run
    ends by [UnboundLocalError], with the error of [wave.open] as its
    context, and no file is closed. *)
Theorem wave_open_failure_unbound (default_server : string) (E : Env)
    (fuel : nat) (args : Namespace) (p : Path) (e : exn) :
  parse_args default_server (passwd E) (sys_argv E) = Ok args ->
  list_devices args = false ->
  Auth_raises E = None ->
  device_open_raises E = None ->
  output args = Some p ->
  wave_open_raises E = Some e ->
  fst (run default_server E fuel)
  = Raise (Raised (UnboundLocalError "out_f") [e])
  /\ w_out_f (snd (run default_server E fuel)) = Unbound
  /\ ~ In EvWaveClose (w_log (snd (run default_server E fuel)))
  /\ w_file (snd (run default_server E fuel)) = None.
Proof.
  intros Hp Hl HA Hd Ho Hw. rewrite (run_cases _ _ _ _ Hp). unfold main_cases.
  rewrite Hl, HA, Hd, Hw. unfold wav_path. rewrite Ho. cbn.
  repeat split. intuition discriminate.
Qed.

Lemma wave_open_failure_unbound_witness :
  let r := run "localhost:50051" unwritable_env 3 in
  wave_open_raises unwritable_env = Some (OSError "Permission denied")
  /\ fst r = Raise (Raised (UnboundLocalError "out_f") [OSError "Permission denied"])
  /\ w_out_f (snd r) = Unbound
  /\ ~ In EvWaveClose (w_log (snd r))
  /\ w_file (snd r) = None.
Proof.
  cbv zeta. split; [reflexivity|].
  apply (wave_open_failure_unbound "localhost:50051" unwritable_env 3
           (set_output (Some (MkPath "/" ["proc"; "out.wav"]))
              (defaults "localhost:50051"))
           (MkPath "/" ["proc"; "out.wav"]));
    vm_compute; reflexivity.
Defined.

Lemma stream_steps_app l1 l2 :
  stream_steps (l1 ++ l2) = stream_steps l1 ++ stream_steps l2.
Proof. apply flat_map_app. Qed.

Lemma stream_from_steps E path start items stop : forall first st,
  exists new k,
    ls_log (snd (stream_from E path start first items stop st)) = ls_log st ++ new
    /\ (k <= List.length items)%nat
    /\ stream_steps new = expected_steps first (firstn k items)
    /\ (forall b, fst (stream_from E path start first items stop st) = Return b ->
          k = List.length items).
Proof.
  induction items as [|resp rest IH]; intros first st; cbn [stream_from].
  - destruct stop.
    + exists [], 0%nat. cbn. rewrite app_nil_r.
      split; [reflexivity|]. split; [lia|]. split; [reflexivity|]. discriminate.
    + exists [EvNext None], 0%nat. cbn.
      split; [reflexivity|]. split; [lia|]. split; reflexivity.
  - set (st3 := if first then _ else _).
    assert (H3 : ls_log st3
                 = ls_log st ++ EvNext (Some resp) :: EvTime
                     :: (if first
                         then [EvPrint (MsgTimeToFirstAudio
                                 (clock E (count is_time
                                    (log_more [EvNext (Some resp)] st)) - start))]
                         else [])).
    { subst st3. destruct first; cbn; rewrite <- !app_assoc; reflexivity. }
    destruct (play_raises E _ _).
    + eexists _, 1%nat. cbn [fst snd log_more ls_log]. rewrite H3.
      rewrite <- app_assoc. split; [reflexivity|].
      split; [cbn; lia|]. split; [|discriminate].
      cbn. destruct first; reflexivity.
    + destruct (IH false (played_more path (audio resp) st3))
        as (new & k & Hlog & Hk & Hsteps & Hret).
      eexists _, (S k). rewrite Hlog. cbn [played_more ls_log]. rewrite H3.
      rewrite <- !app_assoc. split; [reflexivity|].
      split; [cbn; lia|]. split.
      * cbn [firstn expected_steps]. rewrite !stream_steps_app, Hsteps.
        destruct first, path; reflexivity.
      * intros b Hb. cbn. f_equal. apply (Hret b Hb).
Qed.

Lemma iteration_from_log E path args st :
  exists new,
    ls_log (snd (iteration_from E path args st))
    = ls_log st ++ EvInput "Speak: " :: new.
Proof.
  unfold iteration_from.
  destruct (stdin E _) as [text|e]; [|exists []; reflexivity].
  destruct (stream args).
  - match goal with
    | |- context [stream_from ?E ?p ?s ?f ?i ?x ?st0] =>
        destruct (stream_from_steps E p s i x f st0) as (new & k & Hlog & _);
        destruct (stream_from E p s f i x st0) as [[b|e|] st']
    end;
      cbn [snd] in *; rewrite Hlog; cbn; rewrite <- !app_assoc;
      eexists; reflexivity.
  - destruct (synthesize_reply E _ _) as [resp|e].
    2:{ cbn. rewrite <- !app_assoc. eexists. reflexivity. }
    destruct (play_raises E _ _); cbn; rewrite <- !app_assoc;
      eexists; reflexivity.
Qed.

Lemma loop_from_log E path args fuel : forall st,
  exists new, ls_log (snd (loop_from E path args fuel st)) = ls_log st ++ new.
Proof.
  induction fuel as [|fuel IH]; intros st; cbn [loop_from].
  - exists []. cbn. rewrite app_nil_r. reflexivity.
  - destruct (iteration_from_log E path args st) as [new Hnew].
    destruct (iteration_from E path args st) as [[u|e|] st']; cbn [snd] in *.
    + destruct (IH st') as [new' Hnew']. rewrite Hnew', Hnew, <- app_assoc.
      eexists. reflexivity.
    + eexists. exact Hnew.
    + eexists. exact Hnew.
Qed.

Lemma count_prelude kind text st :
  kind (EvInput "Speak: ") = false ->
  (forall m, kind (EvPrint m) = false) ->
  kind EvTime = false ->
  count kind
    (log_more [EvTime]
       (log_more [EvPrint (MsgRequest text)]
          (log_more [EvPrint MsgGenerating]
             (log_more [EvInput "Speak: "] st))))
  = count kind st.
Proof.
  intros H1 H2 H3. rewrite !count_log_more. cbn. rewrite H1, !H2, H3. cbn. lia.
Qed.



(** C10. A streaming iteration whose stream yields no response
    completes without error: it prints no time to first audio, hands
    nothing to the sound device, writes nothing to the file, and the loop
    goes on to the next prompt. *)
Theorem empty_stream_is_silent (E : Env) (dev : option Z) (rate : Z)
    (path : option string) (args : Namespace)
    (service : SpeechSynthesisService_t) (sound_stream : sound_ref)
    (st : loop_state) (text : string) (fuel : nat) :
  (path <> None -> 0 < rate) ->
  stream args = true ->
  stdin E (count is_input st) = Ok text ->
  let req := Request text (voice args) (language_code args) (sample_rate_hz args) in
  synthesize_online_reply E (count is_request st) req = Responses [] None ->
  let new := [EvInput "Speak: "; EvPrint MsgGenerating; EvPrint (MsgRequest text);
              EvTime; EvSynthesizeOnline req; EvNext None] in
  iteration E args service sound_stream (canon dev rate path st)
  = (Return tt, canon dev rate path (log_more new st))
  /\ w_device (canon dev rate path (log_more new st)) = w_device (canon dev rate path st)
  /\ w_file (canon dev rate path (log_more new st)) = w_file (canon dev rate path st)
  /\ exists rest,
       w_log (snd (while_true (S (S fuel))
                     (iteration E args service sound_stream)
                     (canon dev rate path st)))
       = ls_log st ++ new ++ EvInput "Speak: " :: rest.
Proof.
  intros Hrate Hstream Hin req Hreply new.
  assert (Hit : iteration E args service sound_stream (canon dev rate path st)
                = (Return tt, canon dev rate path (log_more new st))).
  { rewrite (iteration_canon E dev rate path args service sound_stream Hrate).
    unfold iteration_from. rewrite Hin, Hstream.
    rewrite (count_prelude is_request) by reflexivity. fold req.
    rewrite Hreply. cbn. unfold log_more. cbn. rewrite <- !app_assoc. reflexivity. }
  split; [exact Hit|]. split; [reflexivity|]. split; [reflexivity|].
  cbn [while_true]. rewrite (bind_Return _ _ _ _ _ Hit).
  unfold bind at 1.
  rewrite (iteration_canon E dev rate path args service sound_stream Hrate).
  destruct (iteration_from_log E path args (log_more new st)) as [rest Hrest].
  destruct (iteration_from E path args (log_more new st)) as [[u|e|] st'];
    cbn [snd] in Hrest.
  - rewrite (while_true_canon E dev rate path args service sound_stream Hrate).
    destruct (loop_from_log E path args fuel st') as [rest' Hrest'].
    destruct (loop_from E path args fuel st') as [o st'']. cbn [snd] in *.
    cbn [canon w_log]. rewrite Hrest', Hrest. cbn [log_more ls_log].
    rewrite <- !app_assoc. eexists. reflexivity.
  - cbn [snd canon w_log]. rewrite Hrest. cbn [log_more ls_log].
    rewrite <- !app_assoc. eexists. reflexivity.
  - cbn [snd canon w_log]. rewrite Hrest. cbn [log_more ls_log].
    rewrite <- !app_assoc. eexists. reflexivity.
Qed.

Lemma empty_stream_is_silent_witness :
  let st := at_loop streaming_args in
  let w := canon None 44100 (Some "/home/user/out.wav") st in
  let service := MkService (MkAuth None false "localhost:50051") in
  let req := Request "" "English-US-Female-1" "en-US" 44100 in
  let new := [EvInput "Speak: "; EvPrint MsgGenerating; EvPrint (MsgRequest "");
              EvTime; EvSynthesizeOnline req; EvNext None] in
  synthesize_online_reply silent_env 0 req = Responses [] None
  /\ iteration silent_env streaming_args service SoundRef w
     = (Return tt, canon None 44100 (Some "/home/user/out.wav") (log_more new st)).
Proof.
  cbv zeta. split; [reflexivity|].
  apply (empty_stream_is_silent silent_env None 44100 (Some "/home/user/out.wav")
           streaming_args (MkService (MkAuth None false "localhost:50051"))
           SoundRef (at_loop streaming_args) "" 0).
  - intros _. reflexivity.
  - reflexivity.
  - reflexivity.
  - reflexivity.
Defined.

(** ** Batch and streaming sessions *)

Lemma stream_from_all_played E path start items : forall first st,
  (forall n data, play_raises E n data = None) ->
  exists b st',
    stream_from E path start first items None st = (Return b, st')
    /\ ls_played st' = ls_played st ++ map audio items.
Proof.
  induction items as [|resp rest IH]; intros first st Hplay; cbn [stream_from].
  - eexists _, _. split; [reflexivity|]. cbn. rewrite app_nil_r. reflexivity.
  - rewrite Hplay.
    match goal with
    | |- context [stream_from E path start false rest None ?st0] =>
        destruct (IH false st0 Hplay) as (b & st' & Heq & Hplayed)
    end.
    eexists _, _. split; [exact Heq|]. rewrite Hplayed.
    destruct first; cbn; rewrite <- app_assoc; reflexivity.
Qed.

Section Chunking.

(** [E1] answers a request in one buffer, [E2] answers the same
    request with a stream of chunks that add up to that buffer; both
    see the same lines typed, and no play is refused. *)
Variables E1 E2 : Env.
Variable path : option string.
Variable args : Namespace.

Hypothesis batch : stream args = false.
Hypothesis same_stdin : forall n, stdin E1 n = stdin E2 n.
Hypothesis same_audio : forall n req,
  exists resp,
    synthesize_reply E1 n req = Ok resp
    /\ rs_end (synthesize_online_reply E2 n req) = None
    /\ audio resp
       = List.concat (map audio (rs_items (synthesize_online_reply E2 n req))).
Hypothesis plays1 : forall n data, play_raises E1 n data = None.
Hypothesis plays2 : forall n data, play_raises E2 n data = None.

Lemma iterations_agree st1 st2 :
  in_step st1 st2 ->
  fst (iteration_from E1 path args st1)
  = fst (iteration_from E2 path (set_stream true args) st2)
  /\ in_step (snd (iteration_from E1 path args st1))
             (snd (iteration_from E2 path (set_stream true args) st2)).
Proof.
  intros (Hi & Hr & Hp). unfold iteration_from.
  rewrite batch. cbn [stream set_stream voice language_code sample_rate_hz].
  rewrite <- Hi, <- same_stdin.
  destruct (stdin E1 (count is_input st1)) as [text|e].
  2:{ cbn [fst snd]. split; [reflexivity|]. unfold in_step.
      rewrite !count_log_more, Hi, Hr. cbn [ls_played log_more].
      repeat split. exact Hp. }
  rewrite !(count_prelude is_request) by reflexivity. rewrite <- Hr.
  set (req := Request text (voice args) (language_code args) (sample_rate_hz args)).
  destruct (same_audio (count is_request st1) req) as (resp & Hresp & Hend & Haudio).
  rewrite Hresp, plays1, Hend.
  match goal with
  | |- context [stream_from E2 path ?s true ?i None ?st0] =>
      destruct (stream_from_all_played E2 path s i true st0 plays2)
        as (b & st' & Heq & Hplayed);
      pose proof (stream_from_count E2 path is_input s i None
                    ltac:(intros [] H; try discriminate H; reflexivity) true st0)
        as Hci;
      pose proof (stream_from_count E2 path is_request s i None
                    ltac:(intros [] H; try discriminate H; reflexivity) true st0)
        as Hcr;
      rewrite Heq in *
  end.
  cbn [fst snd] in *. split; [reflexivity|]. unfold in_step.
  rewrite Hci, Hcr, Hplayed.
  rewrite !count_played_more, !count_log_more by reflexivity.
  cbn [ls_played log_more played_more].
  split; [cbn; lia|]. split; [cbn; lia|].
  rewrite concat_snoc, concat_app, Haudio, Hp. reflexivity.
Qed.

Lemma loops_agree fuel : forall st1 st2,
  in_step st1 st2 ->
  fst (loop_from E1 path args fuel st1)
  = fst (loop_from E2 path (set_stream true args) fuel st2)
  /\ List.concat (ls_played (snd (loop_from E1 path args fuel st1)))
     = List.concat
         (ls_played (snd (loop_from E2 path (set_stream true args) fuel st2))).
Proof.
  induction fuel as [|fuel IH]; intros st1 st2 Hstep; cbn [loop_from].
  - split; [reflexivity | apply Hstep].
  - destruct (iterations_agree st1 st2 Hstep) as [Ho Hs].
    destruct (iteration_from E1 path args st1) as [o1 st1'].
    destruct (iteration_from E2 path (set_stream true args) st2) as [o2 st2'].
    cbn [fst snd] in *. subst o2.
    destruct o1 as [u|e|]; [apply IH, Hs | |]; (split; [reflexivity | apply Hs]).
Qed.

End Chunking.



(** ** Argument resolution *)

(** [int] reads back what [str] prints. *)

Lemma int_digits_digit acc c r :
  is_digit c = true ->
  int_digits acc (String c r) = int_digits (10 * acc + digit_value c) r.
Proof. intros H. cbn [int_digits]. rewrite H. reflexivity. Qed.

Lemma int_digits_uint d : forall acc,
  int_digits (Z.pos acc) (NilEmpty.string_of_uint d)
  = Some (Z.pos (Pos.of_uint_acc d acc)).
Proof.
  induction d; intros acc; cbn [NilEmpty.string_of_uint Pos.of_uint_acc];
    [reflexivity|..];
    (rewrite int_digits_digit by reflexivity; rewrite <- IHd; f_equal;
     match goal with
     | |- context [digit_value ?c] =>
         let v := eval vm_compute in (digit_value c) in
         change (digit_value c) with v
     end; lia).
Qed.

Lemma int_digits_zeros d :
  int_digits 0 (NilEmpty.string_of_uint d) = Some (Z.of_N (Pos.of_uint d)).
Proof.
  induction d; cbn [NilEmpty.string_of_uint Pos.of_uint];
    [reflexivity|..];
    rewrite int_digits_digit by reflexivity;
    [exact IHd | apply (int_digits_uint d) ..].
Qed.

Lemma int_unsigned_uint d :
  d <> Decimal.Nil ->
  int_unsigned (NilEmpty.string_of_uint d) = Some (Z.of_N (Pos.of_uint d)).
Proof.
  intros Hd. destruct d; [contradiction|..];
    cbn [NilEmpty.string_of_uint int_unsigned Pos.of_uint];
    [apply (int_digits_zeros d) | apply (int_digits_uint d) ..].
Qed.

Lemma int_decimal z : int (decimal z) = Some z.
Proof.
  unfold decimal. destruct z as [|p|p]; [reflexivity|..]; cbn [Z.to_int].
  - pose proof (Unsigned.to_uint_nonnil p) as Hnil.
    pose proof (int_unsigned_uint _ Hnil) as H.
    rewrite Unsigned.of_to in H. cbn [Z.of_N] in H.
    unfold NilZero.string_of_int, NilZero.string_of_uint.
    destruct (Pos.to_uint p); [contradiction|..]; exact H.
  - pose proof (Unsigned.to_uint_nonnil p) as Hnil.
    pose proof (int_unsigned_uint _ Hnil) as H.
    rewrite Unsigned.of_to in H. cbn [Z.of_N] in H.
    unfold NilZero.string_of_int, NilZero.string_of_uint.
    destruct (Pos.to_uint p); [contradiction|..];
      match type of H with
      | ?lhs = _ =>
          transitivity (option_map Z.opp lhs);
          [reflexivity | rewrite H; reflexivity]
      end.
Qed.

(** The option for the sample rate takes every integer, whatever its
    sign. *)
Lemma explicit_chain_store arguments a option_string explicit_arg :
  takes_argument a = true ->
  explicit_chain arguments a option_string explicit_arg
  = Ok ([(a, Some explicit_arg)], None).
Proof. intros H. destruct explicit_arg; cbn; rewrite H; reflexivity. Qed.

Lemma rate_option_takes_any_integer default_server pw z :
  parse_args default_server pw [("--sample-rate-hz=" ++ decimal z)%string]
  = Ok (set_sample_rate_hz z (defaults default_server)).
Proof.
  unfold parse_args, parser_parse_args.
  cbn -[int decimal explicit_chain].
  rewrite explicit_chain_store by reflexivity.
  cbn -[int decimal]. rewrite int_decimal. reflexivity.
Qed.

Lemma session_log E args fuel :
  exists new, ls_log (snd (session E args fuel)) = startup_log args ++ new.
Proof.
  unfold session.
  destruct (loop_from_log E (wav_path args) args fuel (at_loop args)) as [new H].
  rewrite H. unfold at_loop. cbn [ls_log]. rewrite <- app_assoc.
  eexists. reflexivity.
Qed.

(** C2, as the code has it.  Argument resolution never looks at the
    sign of the sample rate: when it yields a rate that is zero or
    negative, no error has been raised for it, and unless
    [--list-devices] is set the script goes on to create the [Auth]
    object and, if that succeeds, the synthesis service, and to open the
    audio device with that very rate as frame rate. *)
Theorem nonpositive_rate_reaches_device (default_server : string) (E : Env)
    (fuel : nat) (args : Namespace) :
  parse_args default_server (passwd E) (sys_argv E) = Ok args ->
  sample_rate_hz args <= 0 ->
  list_devices args = false ->
  (exists rest,
     w_log (snd (run default_server E fuel))
     = EvAuth (ssl_cert args) (use_ssl args) (server args) :: rest)
  /\ (Auth_raises E = None ->
      exists rest,
        w_log (snd (run default_server E fuel))
        = [EvAuth (ssl_cert args) (use_ssl args) (server args);
           EvService;
           EvDeviceOpen (output_device args) 1 2 (sample_rate_hz args)] ++ rest).
Proof.
  intros Hp _ Hl. rewrite (run_cases _ _ _ _ Hp). unfold main_cases. rewrite Hl.
  assert (Hsession :
    let r := session E args fuel in
    exists rest,
      w_log (world_after args (fst r) (snd r)) = startup_log args ++ rest).
  { cbv zeta. destruct (session_log E args fuel) as [new Hnew].
    destruct (session E args fuel) as [o st]. cbn [fst snd] in *.
    destruct o; unfold world_after, closed, finalized, canon; cbn [w_log];
      rewrite Hnew, <- ?app_assoc; eexists; reflexivity. }
  cbv zeta in Hsession.
  assert (Hgoal : forall w,
            (exists rest, w_log w = startup_log args ++ rest) ->
            (exists rest,
               w_log w = EvAuth (ssl_cert args) (use_ssl args) (server args) :: rest)
            /\ (Auth_raises E = None ->
                exists rest, w_log w = startup_log args ++ rest)).
  { intros w [rest Hw]. split; [|intros _; exists rest; exact Hw].
    rewrite Hw. eexists. reflexivity. }
  destruct (Auth_raises E) as [e|].
  { split; [eexists; reflexivity | discriminate]. }
  destruct (device_open_raises E).
  { apply Hgoal. exists []. cbn [snd w_log]. rewrite app_nil_r. reflexivity. }
  destruct (wav_path args).
  2:{ destruct (session E args fuel) as [o st]. apply Hgoal, Hsession. }
  destruct (wave_open_raises E).
  { apply Hgoal. eexists. reflexivity. }
  destruct (sample_rate_hz args <=? 0).
  { apply Hgoal. eexists. reflexivity. }
  destruct (session E args fuel) as [o st]. apply Hgoal, Hsession.
Qed.

Lemma nonpositive_rate_reaches_device_witness :
  let args := set_sample_rate_hz 0 (defaults "localhost:50051") in
  (parse_args "localhost:50051" (passwd zero_rate_env) (sys_argv zero_rate_env)
   = Ok args
   /\ sample_rate_hz args <= 0)
  /\ exists rest,
       w_log (snd (run "localhost:50051" zero_rate_env 1))
       = EvAuth None false "localhost:50051" :: rest.
Proof.
  cbv zeta. split.
  - split; [reflexivity | cbn; lia].
  - apply (nonpositive_rate_reaches_device "localhost:50051" zero_rate_env 1
             (set_sample_rate_hz 0 (defaults "localhost:50051")));
      [reflexivity | cbn; lia | reflexivity].
Defined.

(** C2, as the claim states it, fails: a sample rate of zero, and one of
    minus five, pass argument resolution; the run then creates the
    [Auth] object and the service and opens the device with that rate,
    and what ends it is not an argument error. *)
Lemma invalid_rate_counterexample :
  parse_args "localhost:50051" demo_passwd ["--sample-rate-hz"; "0"]
  = Ok (set_sample_rate_hz 0 (defaults "localhost:50051"))
  /\ run "localhost:50051" zero_rate_env 1
     = (Raise (fresh EOFError),
        World [EvAuth None false "localhost:50051"; EvService;
               EvDeviceOpen None 1 2 0; EvInput "Speak: "; EvDeviceClose]
          (Some (MkSoundCallBack None 1 2 0 [] false)) None blank_wave (Bound None))
  /\ sample_rate_hz
       (match parse_args "localhost:50051" demo_passwd
                (sys_argv negative_rate_env) with
        | Ok args => args
        | Err _ => defaults "localhost:50051"
        end) = -5
  /\ fst (run "localhost:50051" negative_rate_env 1)
     = Raise (Raised (WaveError "sampling rate not specified")
                [WaveError "bad frame rate"])
  /\ w_log (snd (run "localhost:50051" negative_rate_env 1))
     = [EvAuth None false "localhost:50051"; EvService;
        EvDeviceOpen None 1 2 (-5); EvWaveOpen "out.wav"; EvWaveClose;
        EvDeviceClose].
Proof. repeat split; vm_compute; reflexivity. Qed.

Section ParserInvariant.

Variable arguments : list Argument.
Variable P : Namespace -> Prop.

Hypothesis step : forall a v ns ns',
  declared arguments a -> take_action a v ns = Ok ns' -> P ns -> P ns'.

Lemma lookup_declared s a : forall l,
  lookup s l = Some a -> In a (map snd l).
Proof.
  induction l as [|[k b] l IH]; cbn; [discriminate|].
  destruct (String.eqb k s); [intros [= ->]; left; reflexivity|].
  intros H. right. apply IH, H.
Qed.

Lemma _get_option_tuples_declared arg_string a s e :
  In (Some a, s, e) (_get_option_tuples arguments arg_string) -> declared arguments a.
Proof.
  assert (Hin : forall (f : string * Action -> list option_tuple),
            (forall k b, In (Some a, s, e) (f (k, b)) -> b = a) ->
            In (Some a, s, e) (flat_map f (_option_string_actions arguments)) ->
            declared arguments a).
  { intros f Hf Hfl. apply in_flat_map in Hfl as ([k b] & Hkb & Hx).
    apply Hf in Hx. subst b. apply in_map_iff. exists (k, a). split; auto. }
  unfold _get_option_tuples.
  destruct (startswith arg_string "--").
  - destruct (split1 "=" arg_string) as [[pfx ea]|];
      apply Hin; intros k b; destruct (startswith k _); cbn;
      intros H; try contradiction;
      (destruct H as [H|H]; [injection H; auto | contradiction]).
  - destruct (startswith arg_string "-"); [|contradiction].
    destruct arg_string as [|c0 [|c1 rest]]; try contradiction.
    apply Hin; intros k b.
    destruct (String.eqb k _); [|destruct (startswith k _)]; cbn;
      intros H; try contradiction;
      (destruct H as [H|H]; [injection H; auto | contradiction]).
Qed.

Lemma _parse_optional_declared arg_string a s e :
  _parse_optional arguments arg_string = Ok (Some (Some a, s, e)) -> declared arguments a.
Proof.
  unfold _parse_optional.
  destruct arg_string as [|c rest]; [discriminate|].
  destruct (negb (Ascii.eqb c "-")); [discriminate|].
  destruct (lookup _ _) as [b|] eqn:Hb.
  { intros [= -> _ _]. apply (lookup_declared _ _ _ Hb). }
  destruct (String.eqb rest ""); [discriminate|].
  destruct (split1 "=" _) as [[option_string explicit_arg]|].
  - destruct (lookup option_string _) as [b|] eqn:Hb'.
    { intros [= -> _ _]. apply (lookup_declared _ _ _ Hb'). }
    destruct (_get_option_tuples arguments _) as [|t [|t' l]] eqn:Ht;
      try discriminate.
    + destruct (looks_like_negative_number _); [discriminate|].
      destruct (contains _ _); discriminate.
    + intros [= ->]. eapply _get_option_tuples_declared.
      rewrite Ht. left. reflexivity.
  - destruct (_get_option_tuples arguments _) as [|t [|t' l]] eqn:Ht;
      try discriminate.
    + destruct (looks_like_negative_number _); [discriminate|].
      destruct (contains _ _); discriminate.
    + intros [= ->]. eapply _get_option_tuples_declared.
      rewrite Ht. left. reflexivity.
Qed.

Lemma classify_declared : forall argv args,
  classify arguments argv = Ok args -> Forall (declared_arg arguments) args.
Proof.
  induction argv as [|arg_string rest IH]; intros args; cbn [classify].
  - intros [= <-]. constructor.
  - destruct (String.eqb arg_string "--").
    { intros [= <-]. constructor; [exact I|].
      apply Forall_forall. intros x Hx. apply in_map_iff in Hx as (v & <- & _).
      exact I. }
    destruct (_parse_optional arguments arg_string) as [cls|] eqn:Hc;
      [|discriminate].
    destruct (classify arguments rest) as [args'|]; [|discriminate].
    intros [= <-]. constructor; [|apply IH; reflexivity].
    destruct cls as [[[[a|] s] e]|]; try exact I.
    apply (_parse_optional_declared _ _ _ _ Hc).
Qed.

Lemma explicit_chain_declared : forall explicit_arg a option_string l last,
  declared arguments a ->
  explicit_chain arguments a option_string explicit_arg = Ok (l, last) ->
  Forall (fun x => declared arguments (fst x)) l
  /\ (forall a', last = Some a' -> declared arguments a').
Proof.
  induction explicit_arg as [|c rest IH]; intros a option_string l last Ha;
    cbn [explicit_chain].
  - destruct (takes_argument a); [|destruct option_string as [|? [|? ?]];
                                    discriminate].
    intros [= <- <-]. split; [repeat constructor; exact Ha | discriminate].
  - destruct (takes_argument a).
    { intros [= <- <-]. split; [repeat constructor; exact Ha | discriminate]. }
    destruct option_string as [|c0 [|c1 os]]; try discriminate.
    destruct (Ascii.eqb c1 "-"); [discriminate|].
    destruct (lookup _ _) as [a'|] eqn:Ha'; [|discriminate].
    pose proof (lookup_declared _ _ _ Ha') as Hd.
    destruct rest as [|c' rest'].
    { intros [= <- <-]. split; [repeat constructor; exact Ha|].
      intros a'' [= <-]. exact Hd. }
    destruct (explicit_chain arguments a' _ (String c' rest'))
      as [[l' last']|] eqn:Hchain; [|discriminate].
    intros [= <- <-].
    destruct (IH a' _ l' last' Hd Hchain) as [Hl Hlast].
    split; [constructor; [exact Ha | exact Hl] | exact Hlast].
Qed.

Lemma take_actions_inv : forall l ns ns',
  Forall (fun x => declared arguments (fst x)) l ->
  take_actions l ns = Ok ns' -> P ns -> P ns'.
Proof.
  induction l as [|[a v] l IH]; intros ns ns' Hl; cbn [take_actions].
  - intros [= <-] H. exact H.
  - inversion Hl as [|x l' Ha Hl']; subst.
    destruct (take_action a v ns) as [ns1|] eqn:H1; [|discriminate].
    intros H Hns. apply (IH ns1 ns' Hl' H). apply (step a v ns ns1 Ha H1 Hns).
Qed.

Lemma consume_inv n : forall args ns extras ns' extras',
  (List.length args <= n)%nat ->
  Forall (declared_arg arguments) args ->
  consume arguments args ns extras = Ok (ns', extras') ->
  P ns -> P ns'.
Proof.
  induction n as [|n IH]; intros args ns extras ns' extras' Hlen Hargs.
  { destruct args; [|cbn in Hlen; lia]. cbn. intros [= <- _] H. exact H. }
  destruct args as [|x rest]; [cbn; intros [= <- _] H; exact H|].
  cbn [List.length] in Hlen.
  inversion Hargs as [|x' rest' Hx Hrest]; subst.
  destruct x as [v|arg_string [[[a|] option_string] explicit_arg]|];
    cbn [consume].
  - apply IH; [lia | exact Hrest].
  - cbn in Hx.
    set (chain := match explicit_arg with
                  | Some e => explicit_chain arguments a option_string e
                  | None => Ok ([], Some a)
                  end).
    assert (Hchain : forall l last, chain = Ok (l, last) ->
              Forall (fun x => declared arguments (fst x)) l
              /\ (forall a', last = Some a' -> declared arguments a')).
    { subst chain. destruct explicit_arg as [e|].
      - intros l last. apply explicit_chain_declared, Hx.
      - intros l last [= <- <-]. split; [constructor|].
        intros a' [= <-]. exact Hx. }
    destruct chain as [[l [last|]]|]; [| |discriminate].
    + destruct (Hchain l (Some last) eq_refl) as [Hl Hlast].
      specialize (Hlast last eq_refl).
      assert (Hall : forall v, Forall (fun x => declared arguments (fst x)) (l ++ [(last, v)])).
      { intros v. apply Forall_app. split; [exact Hl|]. repeat constructor.
        exact Hlast. }
      destruct (takes_argument last).
      * destruct rest as [|[v| |] rest'']; try discriminate.
        destruct (take_actions _ ns) as [ns1|] eqn:H1; [|discriminate].
        intros H Hns. inversion Hrest; subst.
        eapply IH; [| |exact H|]; [cbn in Hlen; lia | assumption |].
        eapply take_actions_inv; [apply Hall | exact H1 | exact Hns].
      * destruct (take_actions _ ns) as [ns1|] eqn:H1; [|discriminate].
        intros H Hns.
        eapply IH; [| |exact H|]; [lia | assumption |].
        eapply take_actions_inv; [apply Hall | exact H1 | exact Hns].
    + destruct (Hchain l None eq_refl) as [Hl _].
      destruct (take_actions l ns) as [ns1|] eqn:H1; [|discriminate].
      intros H Hns.
      eapply IH; [| |exact H|]; [lia | assumption |].
      eapply take_actions_inv; [exact Hl | exact H1 | exact Hns].
  - apply IH; [lia | exact Hrest].
  - apply IH; [lia | exact Hrest].
Qed.

Lemma parser_parse_args_inv defaults argv ns :
  P defaults ->
  parser_parse_args arguments defaults argv = Ok ns -> P ns.
Proof.
  intros Hd. unfold parser_parse_args.
  destruct (classify arguments argv) as [args|] eqn:Hc; [|discriminate].
  destruct (consume arguments args defaults []) as [[ns' extras]|] eqn:Hcons;
    [|discriminate].
  destruct extras; [|discriminate]. intros [= <-].
  eapply consume_inv; [apply Nat.le_refl | | exact Hcons | exact Hd].
  apply (classify_declared _ _ Hc).
Qed.

End ParserInvariant.

Lemma parser_keeps_output_from_text a v ns ns' :
  declared parser a ->
  take_action a v ns = Ok ns' ->
  output_from_text ns -> output_from_text ns'.
Proof.
  unfold declared. cbn.
  intros H Htake Hns.
  repeat (destruct H as [<-|H]); try contradiction;
    cbn in Htake;
    try (destruct v as [arg_string|]; cbn in Htake);
    try discriminate Htake;
    try (destruct (int arg_string); try discriminate Htake);
    injection Htake as <-; try exact Hns.
  all: intros p; cbn; intros [= <-]; eexists; reflexivity.
Qed.

Lemma components_cons_slash name rest :
  contains "/" name = false ->
  components (name ++ String "/" rest)
  = filter (fun x => negb (String.eqb x "") && negb (String.eqb x "."))
      [name] ++ components rest.
Proof.
  intros Hname. unfold components.
  assert (Hsplit : split "/" (name ++ String "/" rest) = name :: split "/" rest).
  { induction name as [|c name IH]; [reflexivity|].
    cbn [contains] in Hname. apply orb_false_iff in Hname as [Hc Hn].
    cbn [append split]. rewrite Hc, (IH Hn). reflexivity. }
  rewrite Hsplit. change (name :: split "/" rest) with ([name] ++ split "/" rest).
  apply filter_app.
Qed.

(** C8. With no option given, argument resolution yields the defaults:
    the fixed voice, language ["en-US"], 44100 Hz, streaming off.  The
    output path of every namespace it returns is the result of
    [expanduser] on a path built from the command line; in particular
    [-o raw] yields [expanduser] of [Path(raw)], and for a path that
    starts with ["~/"] that is the home directory followed by the rest. *)
Theorem argument_defaults_and_home (default_server : string) (pw : Passwd) :
  (parse_args default_server pw [] = Ok (defaults default_server)
   /\ voice (defaults default_server) = "English-US-Female-1"
   /\ language_code (defaults default_server) = "en-US"
   /\ sample_rate_hz (defaults default_server) = 44100
   /\ stream (defaults default_server) = false)
  /\ (forall argv args p,
        parse_args default_server pw argv = Ok args ->
        output args = Some p ->
        exists raw, expanduser pw (Path_of raw) = Ok p)
  /\ (forall raw,
        startswith raw "-" = false ->
        parse_args default_server pw ["-o"; raw]
        = match expanduser pw (Path_of raw) with
          | Ok p => Ok (set_output (Some p) (defaults default_server))
          | Err e => Err e
          end)
  /\ (forall home rest,
        environ_HOME pw = Some home ->
        let homedir := match rstrip "/" home with
                       | EmptyString => "/"
                       | h => h
                       end in
        startswith homedir "~" = false ->
        expanduser pw (Path_of ("~/" ++ rest))
        = Ok (MkPath (_root (Path_of homedir))
                (_parts (Path_of homedir) ++ components rest))).
Proof.
  split; [repeat split|]. split; [|split].
  - intros argv args p. unfold parse_args.
    destruct (parser_parse_args parser (defaults default_server) argv)
      as [ns|] eqn:Hparse; [|discriminate].
    assert (Hns : output_from_text ns).
    { eapply (parser_parse_args_inv parser output_from_text);
        [exact parser_keeps_output_from_text | | exact Hparse].
      intros q. cbn. discriminate. }
    destruct (output ns) as [q|] eqn:Hq.
    + destruct (Hns q Hq) as [raw ->].
      destruct (expanduser pw (Path_of raw)) as [p'|] eqn:Hex; [|discriminate].
      intros [= <-]. cbn. intros [= <-]. exists raw. exact Hex.
    + intros [= <-]. rewrite Hq. discriminate.
  - intros raw Hraw. unfold parse_args, parser_parse_args.
    destruct raw as [|c r]; [reflexivity|].
    unfold startswith in Hraw. cbn in Hraw.
    assert (Hc : Ascii.eqb c "-" = false).
    { destruct (Ascii.eqb_spec c "-") as [->|Hne]; [|reflexivity].
      cbn in Hraw. destruct r; discriminate Hraw. }
    assert (Heq : String.eqb (String c r) "--" = false).
    { cbn [String.eqb]. rewrite Hc. reflexivity. }
    assert (Hopt : _parse_optional parser (String c r) = Ok None).
    { unfold _parse_optional. rewrite Hc. reflexivity. }
    cbn [classify]. rewrite Heq, Hopt.
    change (String.eqb "-o" "--") with false. cbv iota.
    change (_parse_optional parser "-o")
      with (Ok (Some (Some (store (fun s => Some (Path_of s))
                              (fun p => set_output (Some p))), "-o", None))
              : result (option option_tuple)).
    cbv iota beta. cbn [consume takes_argument app take_actions take_action].
    reflexivity.
  - intros home rest Hhome homedir Htilde.
    assert (Hpath : Path_of ("~/" ++ rest) = MkPath "" ("~" :: components rest)).
    { unfold Path_of. cbn [append splitroot].
      change (String "~" (String "/" rest)) with ("~" ++ String "/" rest)%string.
      rewrite components_cons_slash by reflexivity. reflexivity. }
    rewrite Hpath. unfold expanduser. cbn [_root _parts].
    unfold os_path_expanduser. rewrite Hhome. fold homedir.
    destruct homedir as [|c h] eqn:Hd.
    + subst homedir. destruct (rstrip "/" home); discriminate.
    + unfold startswith in Htilde. cbn in Htilde.
      destruct (Ascii.eqb_spec "~" c) as [<-|Hne].
      * destruct h; discriminate Htilde.
      * destruct c as [[] [] [] [] [] [] [] []]; try reflexivity.
        contradiction Hne. reflexivity.
Qed.

Lemma argument_defaults_and_home_witness :
  let args := set_output (Some (MkPath "/" ["home"; "user"; "a.wav"]))
                (defaults "localhost:50051") in
  (parse_args "localhost:50051" demo_passwd ["--output=~/a.wav"] = Ok args
   /\ output args = Some (MkPath "/" ["home"; "user"; "a.wav"]))
  /\ (exists raw,
        expanduser demo_passwd (Path_of raw)
        = Ok (MkPath "/" ["home"; "user"; "a.wav"]))
  /\ parse_args "localhost:50051" demo_passwd ["-o"; "~/a.wav"] = Ok args.
Proof.
  cbv zeta. split; [split; reflexivity|]. split.
  - apply (proj1 (proj2 (argument_defaults_and_home "localhost:50051" demo_passwd))
             ["--output=~/a.wav"]
             (set_output (Some (MkPath "/" ["home"; "user"; "a.wav"]))
                (defaults "localhost:50051")));
      reflexivity.
  - apply (proj1 (proj2 (proj2
             (argument_defaults_and_home "localhost:50051" demo_passwd))) "~/a.wav").
    reflexivity.
Defined.

(** * Further properties of the script *)

(** ** What the loop logs *)

Lemma stream_from_events E args path start items stop : forall first st,
  stream args = true ->
  exists new,
    ls_log (snd (stream_from E path start first items stop st)) = ls_log st ++ new
    /\ Forall (loop_event args path) new.
Proof.
  induction items as [|resp rest IH]; intros first st Hs; cbn [stream_from].
  - destruct stop; cbn [snd].
    + exists []. rewrite app_nil_r. split; [reflexivity | constructor].
    + exists [EvNext None]. split; [reflexivity|].
      constructor; [exact Hs | constructor].
  - set (st3 := if first then _ else _).
    assert (H3 : exists new3,
               ls_log st3 = ls_log st ++ new3 /\ Forall (loop_event args path) new3).
    { subst st3. destruct first; cbn.
      - exists [EvNext (Some resp); EvTime;
                EvPrint (MsgTimeToFirstAudio
                           (clock E (count is_time (log_more [EvNext (Some resp)] st))
                            - start))].
        rewrite <- !app_assoc. split; [reflexivity|].
        repeat constructor; exact Hs.
      - exists [EvNext (Some resp); EvTime].
        rewrite <- !app_assoc. split; [reflexivity|].
        repeat constructor; exact Hs. }
    destruct H3 as (new3 & Hlog3 & Hnew3).
    destruct (play_raises E _ _); cbn [snd].
    + exists (new3 ++ [EvPlay (audio resp)]). cbn. rewrite Hlog3, <- app_assoc.
      split; [reflexivity|]. apply Forall_app. split; [exact Hnew3|].
      repeat constructor.
    + destruct (IH false (played_more path (audio resp) st3) Hs) as (new & Hlog & Hnew).
      exists (new3 ++ (EvPlay (audio resp)
                         :: match path with
                            | Some _ => [EvWriteFrames (audio resp)]
                            | None => []
                            end) ++ new).
      rewrite Hlog. cbn [played_more ls_log]. rewrite Hlog3, <- !app_assoc.
      split; [reflexivity|].
      apply Forall_app. split; [exact Hnew3|].
      apply Forall_app. split; [|exact Hnew].
      constructor; [exact I|]. destruct path; repeat constructor. discriminate.
Qed.

Lemma iteration_from_events E args path st :
  exists new,
    ls_log (snd (iteration_from E path args st)) = ls_log st ++ new
    /\ Forall (loop_event args path) new.
Proof.
  unfold iteration_from.
  destruct (stdin E (count is_input st)) as [text|e]; cbn [snd].
  2:{ exists [EvInput "Speak: "]. split; [reflexivity|]. repeat constructor. }
  destruct (stream args) eqn:Hs.
  - match goal with
    | |- context [stream_from E path ?s ?f ?i ?e ?st0] =>
        destruct (stream_from_events E args path s i e f st0 Hs) as (new & Hlog & Hnew);
        destruct (stream_from E path s f i e st0) as [[b|r|] st'] eqn:Hsf
    end; cbn [snd] in *; rewrite Hlog; cbn; rewrite <- !app_assoc; cbn;
      eexists; (split; [reflexivity|]);
      repeat (constructor; try exact I; try reflexivity; try exact Hs);
      try exact Hnew; repeat split; try exact Hs.
  - destruct (synthesize_reply E _ _) as [resp|e]; cbn [snd].
    + destruct (play_raises E _ _); cbn; rewrite <- !app_assoc; cbn;
        eexists; (split; [reflexivity|]);
        repeat (constructor; try exact I; try reflexivity; try exact Hs).
      all: try (destruct path; repeat constructor; discriminate).
    + cbn. rewrite <- !app_assoc. cbn. eexists. split; [reflexivity|].
      repeat (constructor; try exact I; try reflexivity; try exact Hs).
Qed.

Lemma loop_from_events E args path fuel : forall st,
  exists new,
    ls_log (snd (loop_from E path args fuel st)) = ls_log st ++ new
    /\ Forall (loop_event args path) new.
Proof.
  induction fuel as [|fuel IH]; intros st; cbn [loop_from].
  - exists []. rewrite app_nil_r. split; [reflexivity | constructor].
  - destruct (iteration_from_events E args path st) as (new1 & Hlog1 & Hnew1).
    destruct (iteration_from E path args st) as [[u|r|] st1]; cbn [snd] in *;
      try (exists new1; split; assumption).
    destruct (IH st1) as (new2 & Hlog2 & Hnew2).
    exists (new1 ++ new2). rewrite Hlog2, Hlog1, app_assoc.
    split; [reflexivity | apply Forall_app; split; assumption].
Qed.

Lemma session_events E args fuel :
  exists new,
    ls_log (snd (session E args fuel)) = ls_log (at_loop args) ++ new
    /\ Forall (loop_event args (wav_path args)) new.
Proof. apply loop_from_events. Qed.

Lemma world_after_log args o st :
  w_log (world_after args o st)
  = ls_log st
    ++ match o with
       | Running => []
       | _ => match wav_path args with Some _ => [EvWaveClose] | None => [] end
              ++ [EvDeviceClose]
       end.
Proof.
  destruct o; cbn; rewrite ?app_nil_r, <- ?app_assoc; reflexivity.
Qed.

Lemma at_loop_log args :
  ls_log (at_loop args)
  = startup_log args
    ++ match wav_path args with Some p => [EvWaveOpen p] | None => [] end.
Proof. reflexivity. Qed.

(** ** The ways [main] ends *)

(** X1. [main] returns normally only when [--list-devices] was given:
    the loop has no exit but an exception. *)
Theorem main_returns_only_after_listing (default_server : string) (E : Env)
    (fuel : nat) :
  fst (run default_server E fuel) = Return tt ->
  exists args,
    parse_args default_server (passwd E) (sys_argv E) = Ok args
    /\ list_devices args = true
    /\ list_devices_raises E = None
    /\ w_log (snd (run default_server E fuel)) = [EvListDevices].
Proof.
  destruct (parse_args default_server (passwd E) (sys_argv E)) as [args|e] eqn:Hparse.
  2:{ rewrite (run_parse_error _ _ _ _ Hparse). discriminate. }
  rewrite (run_cases _ _ _ _ Hparse). unfold main_cases.
  destruct (list_devices args) eqn:Hl.
  - destruct (list_devices_raises E) eqn:Hr; [discriminate|].
    intros _. exists args. repeat split; assumption.
  - destruct (Auth_raises E); [discriminate|].
    destruct (device_open_raises E); [discriminate|].
    pose proof (session_prompts E args fuel) as Hs.
    destruct (wav_path args) as [p|]; [destruct (wave_open_raises E); [discriminate|];
      destruct (sample_rate_hz args <=? 0); [discriminate|] |];
      destruct (session E args fuel) as [[[]|r|] st]; cbn [fst snd] in *;
      try contradiction; discriminate.
Qed.

Lemma main_returns_only_after_listing_witness :
  fst (run "localhost:50051" listing_env 2) = Return tt
  /\ exists args,
       parse_args "localhost:50051" (passwd listing_env) (sys_argv listing_env) = Ok args
       /\ list_devices args = true
       /\ list_devices_raises listing_env = None
       /\ w_log (snd (run "localhost:50051" listing_env 2)) = [EvListDevices].
Proof.
  split; [reflexivity|].
  apply (main_returns_only_after_listing "localhost:50051" listing_env 2).
  reflexivity.
Defined.

(** X2. The resources are acquired one after the other: when the
    authentication object cannot be created, nothing else is attempted;
    when the device cannot be opened, the output file is neither created
    nor truncated, nothing is prompted, and there is no device to
    release.  In both cases the error leaves [main] as it was raised. *)
Theorem startup_failure_stops_acquisition (default_server : string) (E : Env)
    (fuel : nat) (args : Namespace) :
  parse_args default_server (passwd E) (sys_argv E) = Ok args ->
  list_devices args = false ->
  (forall e, Auth_raises E = Some e ->
     run default_server E fuel
     = (Raise (fresh e),
        World [EvAuth (ssl_cert args) (use_ssl args) (server args)]
          None None blank_wave Unbound))
  /\ (forall e, Auth_raises E = None -> device_open_raises E = Some e ->
        run default_server E fuel
        = (Raise (fresh e),
           World [EvAuth (ssl_cert args) (use_ssl args) (server args);
                  EvService;
                  EvDeviceOpen (output_device args) 1 2 (sample_rate_hz args)]
             None None blank_wave Unbound)).
Proof.
  intros Hparse Hl. rewrite (run_cases _ _ _ _ Hparse). unfold main_cases.
  rewrite Hl. split.
  - intros e ->. reflexivity.
  - intros e -> ->. reflexivity.
Qed.

Lemma startup_failure_stops_acquisition_witness :
  run "localhost:50051" no_auth_env 3
  = (Raise (fresh (OSError "No such file or directory")),
     World [EvAuth None false "localhost:50051"] None None blank_wave Unbound)
  /\ run "localhost:50051" no_device_env 3
     = (Raise (fresh (DeviceError "Invalid output device")),
        World [EvAuth None false "localhost:50051"; EvService;
               EvDeviceOpen None 1 2 44100]
          None None blank_wave Unbound).
Proof.
  split.
  - apply (proj1 (startup_failure_stops_acquisition "localhost:50051" no_auth_env 3
                    (set_output (Some (MkPath "" ["out.wav"]))
                       (defaults "localhost:50051"))
                    eq_refl eq_refl)).
    reflexivity.
  - apply (proj2 (startup_failure_stops_acquisition "localhost:50051" no_device_env 3
                    (set_output (Some (MkPath "" ["out.wav"]))
                       (defaults "localhost:50051"))
                    eq_refl eq_refl));
      reflexivity.
Defined.

(** X3. With an output file and a sample rate that is zero or negative,
    [setframerate] refuses the rate, and the [close] of the [finally]
    block then fails in turn for want of a rate: the run ends before the
    first prompt by the second error, with the first as its context.  The
    file has been created and is left empty, without a header; the device
    has been released. *)
Theorem nonpositive_rate_leaves_empty_file (default_server : string) (E : Env)
    (fuel : nat) (args : Namespace) (p : Path) :
  parse_args default_server (passwd E) (sys_argv E) = Ok args ->
  list_devices args = false ->
  Auth_raises E = None ->
  device_open_raises E = None ->
  wave_open_raises E = None ->
  output args = Some p ->
  sample_rate_hz args <= 0 ->
  fst (run default_server E fuel)
  = Raise (Raised (WaveError "sampling rate not specified")
             [WaveError "bad frame rate"])
  /\ w_file (snd (run default_server E fuel))
     = Some (WavFile (str_of_Path p) None [] true)
  /\ w_device (snd (run default_server E fuel))
     = Some (MkSoundCallBack (output_device args) 1 2 (sample_rate_hz args) [] false)
  /\ w_log (snd (run default_server E fuel))
     = [EvAuth (ssl_cert args) (use_ssl args) (server args);
        EvService;
        EvDeviceOpen (output_device args) 1 2 (sample_rate_hz args);
        EvWaveOpen (str_of_Path p); EvWaveClose; EvDeviceClose].
Proof.
  intros Hparse Hl Ha Hd Hw Ho Hr.
  rewrite (run_cases _ _ _ _ Hparse). unfold main_cases.
  rewrite Hl, Ha, Hd, Hw. unfold wav_path. rewrite Ho. cbn [option_map].
  apply Z.leb_le in Hr. rewrite Hr. repeat split.
Qed.

Lemma nonpositive_rate_leaves_empty_file_witness :
  fst (run "localhost:50051" negative_rate_env 4)
  = Raise (Raised (WaveError "sampling rate not specified")
             [WaveError "bad frame rate"])
  /\ w_file (snd (run "localhost:50051" negative_rate_env 4))
     = Some (WavFile "out.wav" None [] true).
Proof.
  pose proof (nonpositive_rate_leaves_empty_file "localhost:50051" negative_rate_env 4
                (set_output (Some (MkPath "" ["out.wav"]))
                   (set_sample_rate_hz (-5) (defaults "localhost:50051")))
                (MkPath "" ["out.wav"])
                eq_refl eq_refl eq_refl eq_refl eq_refl eq_refl) as H.
  destruct H as (H1 & H2 & _); [cbn; lia|].
  split; [exact H1 | exact H2].
Defined.

(** ** What a session never does *)

Lemma loop_event_no_file args e :
  loop_event args None e -> is_file_event e = false.
Proof.
  destruct e; cbn; try reflexivity; contradiction.
Qed.

Lemma Forall_forallb {A} (P : A -> Prop) (f : A -> bool) (l : list A) :
  (forall x, P x -> f x = true) -> Forall P l -> forallb f l = true.
Proof.
  intros H HF. induction HF as [|x l Hx _ IH]; [reflexivity|].
  cbn. rewrite (H x Hx), IH. reflexivity.
Qed.

(** X4. Without [-o] no file is opened, written or closed, whatever the
    session does and however it ends. *)
Theorem no_output_no_file (default_server : string) (E : Env) (fuel : nat)
    (args : Namespace) :
  parse_args default_server (passwd E) (sys_argv E) = Ok args ->
  output args = None ->
  w_file (snd (run default_server E fuel)) = None
  /\ forallb (fun e => negb (is_file_event e))
       (w_log (snd (run default_server E fuel))) = true.
Proof.
  intros Hparse Ho.
  rewrite (run_cases _ _ _ _ Hparse). unfold main_cases.
  assert (Hp : wav_path args = None) by (unfold wav_path; rewrite Ho; reflexivity).
  destruct (list_devices args); [split; reflexivity|].
  destruct (Auth_raises E); [split; reflexivity|].
  destruct (device_open_raises E); [split; reflexivity|].
  rewrite Hp.
  destruct (session_events E args fuel) as (new & Hlog & Hnew).
  destruct (session E args fuel) as [o st]. cbn [snd] in *. split.
  - destruct o; cbn; rewrite Hp; reflexivity.
  - rewrite world_after_log, Hlog, at_loop_log, Hp, app_nil_r.
    rewrite !forallb_app. rewrite Hp in Hnew.
    rewrite (Forall_forallb _ _ _ (fun e H => f_equal negb (loop_event_no_file args e H)) Hnew).
    destruct o; reflexivity.
Qed.

Lemma no_output_no_file_witness :
  w_file (snd (run "localhost:50051" (demo_env ["--stream"]) 5)) = None
  /\ forallb (fun e => negb (is_file_event e))
       (w_log (snd (run "localhost:50051" (demo_env ["--stream"]) 5))) = true.
Proof.
  apply (no_output_no_file "localhost:50051" (demo_env ["--stream"]) 5
           (set_stream true (defaults "localhost:50051")));
    reflexivity.
Defined.

Lemma loop_event_mode args path e :
  loop_event args path e ->
  (if stream args then batch_event e else streaming_event e) = false.
Proof.
  destruct e as [| | | | | | | |[]| | | | | |]; cbn; intros H;
    first [ now destruct (stream args)
          | now rewrite H
          | destruct H as [H _]; now rewrite H ].
Qed.

(** X5. A session runs in one mode throughout: without [--stream] it
    never opens a stream, takes a response from one or prints a time to
    first audio; with [--stream] it never sends a one-shot request or
    prints a time spent. *)
Theorem one_mode_per_session (default_server : string) (E : Env) (fuel : nat)
    (args : Namespace) :
  parse_args default_server (passwd E) (sys_argv E) = Ok args ->
  forallb (fun e => negb (if stream args then batch_event e else streaming_event e))
    (w_log (snd (run default_server E fuel))) = true.
Proof.
  intros Hparse.
  rewrite (run_cases _ _ _ _ Hparse). unfold main_cases.
  destruct (list_devices args); [destruct (stream args); reflexivity|].
  destruct (Auth_raises E); [destruct (stream args); reflexivity|].
  destruct (device_open_raises E); [destruct (stream args); reflexivity|].
  assert (Hsession :
            forallb (fun e => negb (if stream args then batch_event e
                                    else streaming_event e))
              (w_log (snd (let (o, st) := session E args fuel in
                           (o, world_after args o st)))) = true).
  { destruct (session_events E args fuel) as (new & Hlog & Hnew).
    destruct (session E args fuel) as [o st]. cbn [snd] in *.
    rewrite world_after_log, Hlog, at_loop_log, !forallb_app.
    rewrite (Forall_forallb _ _ _
               (fun e H => f_equal negb (loop_event_mode args _ e H)) Hnew).
    destruct (wav_path args), o, (stream args); reflexivity. }
  destruct (wav_path args) as [p|] eqn:Hp; [|exact Hsession].
  destruct (wave_open_raises E); [destruct (stream args); reflexivity|].
  destruct (sample_rate_hz args <=? 0); [destruct (stream args); reflexivity|].
  exact Hsession.
Qed.

Lemma one_mode_per_session_witness :
  forallb (fun e => negb (batch_event e))
    (w_log (snd (run "localhost:50051" (demo_env ["--stream"; "-o"; "~/out.wav"]) 5)))
  = true.
Proof.
  apply (one_mode_per_session "localhost:50051"
           (demo_env ["--stream"; "-o"; "~/out.wav"]) 5
           (set_stream true
              (set_output (Some (MkPath "/" ["home"; "user"; "out.wav"]))
                 (defaults "localhost:50051")))).
  reflexivity.
Defined.

Lemma loop_event_no_close args path e :
  loop_event args path e -> is_close_event e = false.
Proof. destruct e; cbn; try reflexivity; contradiction. Qed.

(** X6. When a run is over and the device had been opened, the device
    has been released, by the last call of the run; an output file that
    was created has been closed by the call just before it; and neither
    was closed or released at any earlier moment. *)
Theorem file_closed_then_device_released (default_server : string) (E : Env)
    (fuel : nat) (args : Namespace) (d : SoundCallBack) :
  parse_args default_server (passwd E) (sys_argv E) = Ok args ->
  fst (run default_server E fuel) <> Running ->
  w_device (snd (run default_server E fuel)) = Some d ->
  sc_opened d = false
  /\ exists body,
       w_log (snd (run default_server E fuel))
       = body
         ++ match w_file (snd (run default_server E fuel)) with
            | Some _ => [EvWaveClose]
            | None => []
            end
         ++ [EvDeviceClose]
       /\ forallb (fun e => negb (is_close_event e)) body = true.
Proof.
  intros Hparse.
  rewrite (run_cases _ _ _ _ Hparse). unfold main_cases.
  destruct (list_devices args); [discriminate|].
  destruct (Auth_raises E); [discriminate|].
  destruct (device_open_raises E); [discriminate|].
  assert (Hsession :
            let r := (let (o, st) := session E args fuel in
                      (o, world_after args o st)) in
            fst r <> Running -> w_device (snd r) = Some d ->
            sc_opened d = false
            /\ exists body,
                 w_log (snd r)
                 = body
                   ++ match w_file (snd r) with
                      | Some _ => [EvWaveClose]
                      | None => []
                      end
                   ++ [EvDeviceClose]
                 /\ forallb (fun e => negb (is_close_event e)) body = true).
  { cbv zeta. destruct (session_events E args fuel) as (new & Hlog & Hnew).
    destruct (session E args fuel) as [o st]. cbn [fst snd] in *.
    intros Ho Hd.
    assert (Hw : world_after args o st
                 = closed (output_device args) (sample_rate_hz args) (wav_path args) st)
      by (destruct o; [reflexivity | reflexivity | contradiction Ho; reflexivity]).
    rewrite Hw in *. cbn in Hd. injection Hd as <-. split; [reflexivity|].
    exists (ls_log st). split.
    - cbn. destruct (wav_path args); rewrite <- ?app_assoc; reflexivity.
    - rewrite Hlog, at_loop_log, !forallb_app.
      rewrite (Forall_forallb _ _ _
                 (fun e H => f_equal negb (loop_event_no_close args _ e H)) Hnew).
      destruct (wav_path args); reflexivity. }
  destruct (wav_path args) as [p|] eqn:Hp; [|exact Hsession].
  destruct (wave_open_raises E).
  { intros _ [= <-]. split; [reflexivity|].
    exists (startup_log args ++ [EvWaveOpen p]). cbn [snd w_file w_log].
    rewrite <- app_assoc. split; reflexivity. }
  destruct (sample_rate_hz args <=? 0); [|exact Hsession].
  intros _ [= <-]. split; [reflexivity|].
  exists (startup_log args ++ [EvWaveOpen p]). cbn [snd w_file w_log].
  rewrite <- app_assoc. split; reflexivity.
Qed.

Lemma file_closed_then_device_released_witness :
  let r := run "localhost:50051" refusing_env 5 in
  fst r <> Running
  /\ exists d,
       w_device (snd r) = Some d
       /\ sc_opened d = false
       /\ exists body,
            w_log (snd r)
            = body
              ++ match w_file (snd r) with
                 | Some _ => [EvWaveClose]
                 | None => []
                 end
              ++ [EvDeviceClose]
            /\ forallb (fun e => negb (is_close_event e)) body = true.
Proof.
  cbv zeta. split; [discriminate|].
  exists (MkSoundCallBack None 1 2 44100 [chunk_a] false).
  split; [reflexivity|].
  apply (file_closed_then_device_released "localhost:50051" refusing_env 5
           (set_stream true
              (set_output (Some (MkPath "/" ["home"; "user"; "out.wav"]))
                 (defaults "localhost:50051"))));
    [reflexivity | discriminate | reflexivity].
Defined.

(** ** Requests and the lines typed *)

Lemma requests_app l1 l2 : requests (l1 ++ l2) = requests l1 ++ requests l2.
Proof. apply flat_map_app. Qed.

Lemma stream_from_stream_events E path start items stop : forall first st,
  exists new,
    ls_log (snd (stream_from E path start first items stop st)) = ls_log st ++ new
    /\ forallb is_stream_event new = true.
Proof.
  induction items as [|resp rest IH]; intros first st; cbn [stream_from].
  - destruct stop; cbn [snd].
    + exists []. rewrite app_nil_r. split; reflexivity.
    + exists [EvNext None]. split; reflexivity.
  - set (st3 := if first then _ else _).
    assert (H3 : exists new3,
               ls_log st3 = ls_log st ++ new3 /\ forallb is_stream_event new3 = true).
    { subst st3. destruct first; cbn; rewrite <- !app_assoc;
        eexists; split; reflexivity. }
    destruct H3 as (new3 & Hlog3 & Hnew3).
    destruct (play_raises E _ _); cbn [snd].
    + exists (new3 ++ [EvPlay (audio resp)]). cbn. rewrite Hlog3, <- app_assoc.
      split; [reflexivity|]. rewrite forallb_app, Hnew3. reflexivity.
    + destruct (IH false (played_more path (audio resp) st3)) as (new & Hlog & Hnew).
      rewrite Hlog. cbn [played_more ls_log]. rewrite Hlog3, <- !app_assoc.
      eexists. split; [reflexivity|].
      rewrite !forallb_app, Hnew3, Hnew. destruct path; reflexivity.
Qed.

Lemma stream_events_no_requests new :
  forallb is_stream_event new = true -> requests new = [].
Proof.
  induction new as [|e new IH]; [reflexivity|].
  cbn [forallb]. intros H. apply andb_prop in H as [He Hnew].
  change (e :: new) with ([e] ++ new).
  rewrite requests_app, (IH Hnew), app_nil_r. destruct e; try discriminate He; reflexivity.
Qed.

Section Requests.

Variable E : Env.
Variable path : option string.
Variable args : Namespace.

Local Abbreviation requests_ok := (requests_ok E args).

Lemma requests_ok_snoc l text :
  requests_ok l ->
  stdin E (List.length l) = Ok text ->
  requests_ok
    (l ++ [Request text (voice args) (language_code args) (sample_rate_hz args)]).
Proof.
  intros Hl Htext n req Hn.
  destruct (Nat.lt_ge_cases n (List.length l)) as [Hlt|Hge].
  - rewrite nth_error_app1 in Hn by exact Hlt. exact (Hl n req Hn).
  - rewrite nth_error_app2 in Hn by exact Hge.
    destruct (n - List.length l)%nat as [|k] eqn:Hk.
    + cbn in Hn. injection Hn as <-. exists text.
      replace n with (List.length l) by lia. split; [exact Htext | reflexivity].
    + cbn in Hn. destruct k; discriminate Hn.
Qed.

Lemma iteration_from_requests st :
  count is_input st = List.length (requests (ls_log st)) ->
  requests_ok (requests (ls_log st)) ->
  requests_ok (requests (ls_log (snd (iteration_from E path args st))))
  /\ (forall u, fst (iteration_from E path args st) = Return u ->
        count is_input (snd (iteration_from E path args st))
        = List.length (requests (ls_log (snd (iteration_from E path args st))))).
Proof.
  intros Hc Hok. unfold iteration_from.
  destruct (stdin E (count is_input st)) as [text|e] eqn:Hin; cbn [fst snd].
  2:{ split; [|discriminate]. cbn. rewrite requests_app, app_nil_r. exact Hok. }
  rewrite Hc in Hin.
  pose proof (requests_ok_snoc _ text Hok Hin) as Hok'.
  assert (Hk : forall e, is_stream_event e = true -> is_input e = false)
    by (intros [] H; try discriminate H; reflexivity).
  destruct (stream args).
  - match goal with
    | |- context [stream_from E path ?s ?f ?i ?x ?st0] =>
        pose proof (stream_from_count E path is_input s i x Hk f st0) as Hci;
        destruct (stream_from_stream_events E path s i x f st0)
          as (new & Hlog & Hnew);
        destruct (stream_from E path s f i x st0) as [[b|r|] st']
    end; cbn [fst snd] in *;
      rewrite Hlog, requests_app, (stream_events_no_requests _ Hnew), app_nil_r;
      cbn [log_more ls_log]; rewrite !requests_app; cbn; rewrite !app_nil_r;
      (split; [exact Hok'|]); try discriminate.
    intros u _. rewrite Hci, !count_log_more, length_app. cbn. lia.
  - destruct (synthesize_reply E _ _) as [resp|e]; cbn [fst snd].
    2:{ split; [|discriminate]. cbn. rewrite !requests_app. cbn.
        rewrite !app_nil_r. exact Hok'. }
    destruct (play_raises E _ _); cbn [fst snd].
    + split; [|discriminate]. cbn. rewrite !requests_app. cbn.
      rewrite !app_nil_r. exact Hok'.
    + split.
      * cbn. rewrite !requests_app. destruct path; cbn; rewrite !app_nil_r; exact Hok'.
      * intros u _. rewrite count_played_more, !count_log_more by reflexivity.
        cbn. rewrite !requests_app. destruct path; cbn;
          rewrite !app_nil_r, length_app; cbn; lia.
Qed.

Lemma loop_from_requests fuel : forall st,
  count is_input st = List.length (requests (ls_log st)) ->
  requests_ok (requests (ls_log st)) ->
  requests_ok (requests (ls_log (snd (loop_from E path args fuel st)))).
Proof.
  induction fuel as [|fuel IH]; intros st Hc Hok; cbn [loop_from]; [exact Hok|].
  destruct (iteration_from_requests st Hc Hok) as [Hok1 Hc1].
  destruct (iteration_from E path args st) as [[u|r|] st1]; cbn [fst snd] in *;
    try exact Hok1.
  apply IH; [exact (Hc1 u eq_refl) | exact Hok1].
Qed.

End Requests.

(** X7. Requests follow the lines typed: the [n]-th request of a run,
    one-shot or streaming, carries the [n]-th line read from standard
    input, and the voice, the language and the sample rate of the
    arguments.  No line is sent twice and none is skipped. *)
Theorem requests_follow_the_lines (default_server : string) (E : Env)
    (fuel : nat) (args : Namespace) (n : nat) (req : request) :
  parse_args default_server (passwd E) (sys_argv E) = Ok args ->
  nth_error (requests (w_log (snd (run default_server E fuel)))) n = Some req ->
  exists text,
    stdin E n = Ok text
    /\ req = Request text (voice args) (language_code args) (sample_rate_hz args).
Proof.
  intros Hparse.
  rewrite (run_cases _ _ _ _ Hparse). unfold main_cases.
  assert (Hnil : forall l, requests l = [] ->
            nth_error (requests l) n = Some req ->
            exists text,
              stdin E n = Ok text
              /\ req = Request text (voice args) (language_code args)
                         (sample_rate_hz args)).
  { intros l ->. destruct n; discriminate. }
  destruct (list_devices args); [apply Hnil; reflexivity|].
  destruct (Auth_raises E); [apply Hnil; reflexivity|].
  destruct (device_open_raises E); [apply Hnil; reflexivity|].
  assert (Hsession :
            nth_error
              (requests (w_log (snd (let (o, st) := session E args fuel in
                                     (o, world_after args o st))))) n = Some req ->
            exists text,
              stdin E n = Ok text
              /\ req = Request text (voice args) (language_code args)
                         (sample_rate_hz args)).
  { assert (H0 : count is_input (at_loop args)
                 = List.length (requests (ls_log (at_loop args))))
      by (unfold at_loop, count; cbn; destruct (wav_path args); reflexivity).
    assert (Hok0 : requests_ok E args (requests (ls_log (at_loop args)))).
    { intros m r. unfold at_loop. cbn. destruct (wav_path args); cbn;
        destruct m; discriminate. }
    pose proof (loop_from_requests E (wav_path args) args fuel _ H0 Hok0) as Hok.
    fold (session E args fuel) in Hok.
    destruct (session E args fuel) as [o st]. cbn [snd] in *.
    rewrite world_after_log, requests_app.
    match goal with
    | |- context [requests ?l1 ++ requests ?l2] =>
        assert (Hclosing : requests l2 = [])
          by (destruct o, (wav_path args); reflexivity)
    end.
    rewrite Hclosing, app_nil_r. apply Hok. }
  destruct (wav_path args) as [p|] eqn:Hp; [|exact Hsession].
  destruct (wave_open_raises E); [apply Hnil; reflexivity|].
  destruct (sample_rate_hz args <=? 0); [apply Hnil; reflexivity|].
  exact Hsession.
Qed.

Lemma requests_follow_the_lines_witness :
  nth_error
    (requests (w_log (snd (run "localhost:50051" (demo_env ["--stream"]) 5)))) 1
  = Some (Request "world" "English-US-Female-1" "en-US" 44100)
  /\ exists text,
       stdin (demo_env ["--stream"]) 1 = Ok text
       /\ Request "world" "English-US-Female-1" "en-US" 44100
          = Request text "English-US-Female-1" "en-US" 44100.
Proof.
  split; [reflexivity|].
  apply (requests_follow_the_lines "localhost:50051" (demo_env ["--stream"]) 5
           (set_stream true (defaults "localhost:50051")) 1
           (Request "world" "English-US-Female-1" "en-US" 44100));
    reflexivity.
Defined.

(** ** The latencies reported *)

Lemma latencies_app l1 l2 : latencies (l1 ++ l2) = latencies l1 ++ latencies l2.
Proof. apply flat_map_app. Qed.

Section Latencies.

Variable E : Env.
Variable path : option string.
Variable args : Namespace.
Hypothesis clock_monotone : monotone (clock E).

Local Abbreviation nonneg := (Forall (fun v => 0 <= v)).

Lemma latencies_log_more new st :
  nonneg (latencies (ls_log st)) -> nonneg (latencies new) ->
  nonneg (latencies (ls_log (log_more new st))).
Proof.
  intros H1 H2. cbn. rewrite latencies_app. apply Forall_app. split; assumption.
Qed.

Lemma latencies_played_more data st :
  nonneg (latencies (ls_log st)) ->
  nonneg (latencies (ls_log (played_more path data st))).
Proof.
  intros H. cbn. rewrite latencies_app. apply Forall_app. split; [exact H|].
  destruct path; constructor.
Qed.

Lemma stream_from_latencies start items stop : forall first st,
  (forall n, (count is_time st <= n)%nat -> start <= clock E n) ->
  nonneg (latencies (ls_log st)) ->
  nonneg (latencies (ls_log (snd (stream_from E path start first items stop st)))).
Proof.
  induction items as [|resp rest IH]; intros first st Hstart Hst; cbn [stream_from].
  - destruct stop; cbn [snd]; [exact Hst|].
    apply latencies_log_more; [exact Hst | constructor].
  - set (st1 := log_more [EvNext (Some resp)] st).
    set (st3 := if first then _ else _).
    assert (Hc1 : count is_time st1 = count is_time st)
      by (subst st1; rewrite count_log_more; cbn; lia).
    assert (Hc3 : count is_time st3 = S (count is_time st)).
    { subst st3. destruct first; rewrite !count_log_more; fold st1; rewrite Hc1;
        cbn; lia. }
    assert (H3 : nonneg (latencies (ls_log st3))).
    { subst st3. destruct first.
      - repeat apply latencies_log_more; try exact Hst; try constructor;
          [|constructor].
        fold st1. rewrite Hc1. specialize (Hstart (count is_time st)). lia.
      - repeat apply latencies_log_more; try exact Hst; constructor. }
    destruct (play_raises E _ _); cbn [snd].
    + apply latencies_log_more; [exact H3 | constructor].
    + apply IH.
      * intros n Hn. apply Hstart.
        rewrite count_played_more, Hc3 in Hn by reflexivity. lia.
      * apply latencies_played_more. exact H3.
Qed.

Lemma iteration_from_latencies st :
  nonneg (latencies (ls_log st)) ->
  nonneg (latencies (ls_log (snd (iteration_from E path args st)))).
Proof.
  intros Hst. unfold iteration_from.
  destruct (stdin E (count is_input st)) as [text|e]; cbn [snd].
  2:{ apply latencies_log_more; [exact Hst | constructor]. }
  set (st1 := log_more [EvPrint (MsgRequest text)] _).
  assert (H1 : nonneg (latencies (ls_log st1)))
    by (subst st1; repeat apply latencies_log_more; try exact Hst; constructor).
  clearbody st1.
  destruct (stream args).
  - match goal with
    | |- context [stream_from E path ?s ?f ?i ?x ?st0] =>
        assert (Hsf : nonneg (latencies (ls_log (snd (stream_from E path s f i x st0)))));
        [ apply stream_from_latencies
        | destruct (stream_from E path s f i x st0) as [[b|r|] st']; exact Hsf ]
    end.
    + intros n Hn. apply clock_monotone.
      rewrite !count_log_more in Hn. cbn -[count] in Hn. lia.
    + repeat apply latencies_log_more; try exact H1; constructor.
  - destruct (synthesize_reply E _ _) as [resp|e]; cbn [snd].
    2:{ repeat apply latencies_log_more; try exact H1; constructor. }
    assert (H4 : nonneg
              (latencies
                 (ls_log
                    (log_more
                       [EvPrint
                          (MsgTimeSpent
                             (clock E
                                (count is_time
                                   (log_more
                                      [EvSynthesize
                                         (Request text (voice args) (language_code args)
                                            (sample_rate_hz args))]
                                      (log_more [EvTime] st1)))
                              - clock E (count is_time st1)))]
                       (log_more [EvTime]
                          (log_more
                             [EvSynthesize
                                (Request text (voice args) (language_code args)
                                   (sample_rate_hz args))]
                             (log_more [EvTime] st1))))))).
    { repeat apply latencies_log_more; try exact H1; try constructor; [|constructor].
      apply Zle_minus_le_0. apply clock_monotone.
      rewrite !count_log_more. cbn. lia. }
    destruct (play_raises E _ _); cbn [snd].
    + apply latencies_log_more; [exact H4 | constructor].
    + apply latencies_played_more. exact H4.
Qed.

Lemma loop_from_latencies fuel : forall st,
  nonneg (latencies (ls_log st)) ->
  nonneg (latencies (ls_log (snd (loop_from E path args fuel st)))).
Proof.
  induction fuel as [|fuel IH]; intros st Hst; cbn [loop_from]; [exact Hst|].
  pose proof (iteration_from_latencies st Hst) as H1.
  destruct (iteration_from E path args st) as [[u|r|] st1]; cbn [snd] in *;
    try exact H1.
  apply IH. exact H1.
Qed.

End Latencies.



(** ** The header while the session is running *)

Section HeaderProgress.

Variable E : Env.
Variable p : string.
Variable args : Namespace.

Lemma header_of_first_log_more new st :
  header_of_first st -> header_of_first (log_more new st).
Proof. intros H. exact H. Qed.

Lemma header_of_first_played_more data st :
  header_of_first st -> header_of_first (played_more (Some p) data st).
Proof.
  unfold header_of_first, played_more. cbn [ls_played ls_ws].
  destruct (ls_played st) as [|first rest]; cbn [app].
  - intros ->. cbn. eexists _, _. reflexivity.
  - intros (nf & nfw & ->). cbn. eexists _, _. reflexivity.
Qed.

Lemma stream_from_header start items stop : forall first st,
  header_of_first st ->
  header_of_first (snd (stream_from E (Some p) start first items stop st)).
Proof.
  induction items as [|resp rest IH]; intros first st Hst; cbn [stream_from].
  - destruct stop; exact Hst.
  - destruct (play_raises E _ _); cbn [snd].
    + destruct first; exact Hst.
    + apply IH. apply header_of_first_played_more. destruct first; exact Hst.
Qed.

Lemma iteration_from_header st :
  header_of_first st ->
  header_of_first (snd (iteration_from E (Some p) args st)).
Proof.
  intros Hst. unfold iteration_from.
  destruct (stdin E (count is_input st)) as [text|e]; [|exact Hst].
  destruct (stream args).
  - match goal with
    | |- context [stream_from E (Some p) ?s ?f ?i ?x ?st0] =>
        pose proof (stream_from_header s i x f st0 Hst) as H;
        destruct (stream_from E (Some p) s f i x st0) as [[b|r|] st']; exact H
    end.
  - destruct (synthesize_reply E _ _) as [resp|e]; [|exact Hst].
    destruct (play_raises E _ _); cbn [snd]; [exact Hst|].
    apply header_of_first_played_more. exact Hst.
Qed.

Lemma loop_from_header fuel : forall st,
  header_of_first st ->
  header_of_first (snd (loop_from E (Some p) args fuel st)).
Proof.
  induction fuel as [|fuel IH]; intros st Hst; cbn [loop_from]; [exact Hst|].
  pose proof (iteration_from_header st Hst) as H1.
  destruct (iteration_from E (Some p) args st) as [[u|r|] st1]; cbn [snd] in *;
    try exact H1.
  apply IH. exact H1.
Qed.

End HeaderProgress.



(** ** Unrolling the loop further *)

Lemma iteration_from_not_running E path args st :
  fst (iteration_from E path args st) <> Running.
Proof.
  unfold iteration_from.
  destruct (stdin E (count is_input st)) as [text|e]; [|discriminate].
  destruct (stream args).
  - match goal with
    | |- context [stream_from E path ?s ?f ?i ?x ?st0] =>
        pose proof (stream_from_not_running E path s i x f st0) as H;
        destruct (stream_from E path s f i x st0) as [[b|r|] st']
    end; cbn [fst] in *;
      [discriminate | discriminate | contradiction H; reflexivity].
  - destruct (synthesize_reply E _ _) as [resp|e]; [|discriminate].
    destruct (play_raises E _ _); discriminate.
Qed.

(** Unrolling [a + b] times is unrolling [a] times and, if the loop is
    still running then, [b] times more from there. *)
Lemma loop_from_add E path args a b : forall st,
  loop_from E path args (a + b) st
  = match loop_from E path args a st with
    | (Running, st') => loop_from E path args b st'
    | r => r
    end.
Proof.
  induction a as [|a IH]; intros st; [reflexivity|].
  cbn [Nat.add loop_from].
  pose proof (iteration_from_not_running E path args st) as Hnr.
  destruct (iteration_from E path args st) as [[u|r|] st1]; cbn [fst] in Hnr.
  - apply IH.
  - reflexivity.
  - contradiction Hnr. reflexivity.
Qed.



(** ** Errors of argument resolution *)

Section ParserErrors.

Variable arguments : list Argument.

Lemma _parse_optional_error arg_string e :
  _parse_optional arguments arg_string = Err e -> e = SystemExit 2.
Proof.
  unfold _parse_optional.
  destruct arg_string as [|c rest]; [discriminate|].
  destruct (negb (Ascii.eqb c "-")); [discriminate|].
  destruct (lookup _ _); [discriminate|].
  destruct (String.eqb rest ""); [discriminate|].
  match goal with
  | |- context [match ?x with Some t => Ok (Some t) | None => _ end] =>
      destruct x; [discriminate|]
  end.
  destruct (_get_option_tuples arguments _) as [|t [|t' l]]; [|discriminate|].
  - destruct (looks_like_negative_number _); [discriminate|].
    destruct (contains _ _); discriminate.
  - intros [= <-]. reflexivity.
Qed.

Lemma classify_error : forall argv e,
  classify arguments argv = Err e -> e = SystemExit 2.
Proof.
  induction argv as [|arg_string rest IH]; intros e; cbn [classify]; [discriminate|].
  destruct (String.eqb arg_string "--"); [discriminate|].
  destruct (_parse_optional arguments arg_string) as [cls|e'] eqn:Hc.
  - destruct (classify arguments rest) as [args|e'']; [discriminate|].
    intros [= <-]. apply IH. reflexivity.
  - intros [= <-]. apply (_parse_optional_error _ _ Hc).
Qed.

Lemma explicit_chain_error : forall explicit_arg a option_string e,
  explicit_chain arguments a option_string explicit_arg = Err e -> e = SystemExit 2.
Proof.
  induction explicit_arg as [|c rest IH]; intros a option_string e;
    cbn [explicit_chain].
  - destruct (takes_argument a); [discriminate|].
    destruct option_string as [|? [|? ?]]; intros [= <-]; reflexivity.
  - destruct (takes_argument a); [discriminate|].
    destruct option_string as [|c0 [|c1 os]]; try (intros [= <-]; reflexivity).
    destruct (Ascii.eqb c1 "-"); [intros [= <-]; reflexivity|].
    destruct (lookup _ _) as [a'|]; [|intros [= <-]; reflexivity].
    destruct rest as [|c' rest']; [discriminate|].
    destruct (explicit_chain arguments a' _ (String c' rest'))
      as [[l' last']|e'] eqn:Hchain; [discriminate|].
    intros [= <-]. apply (IH _ _ _ Hchain).
Qed.

Lemma take_action_error a v ns e :
  take_action a v ns = Err e -> parser_exit e.
Proof.
  destruct a as [T type setattr|setattr|]; cbn.
  - destruct v as [arg_string|]; [destruct (type arg_string)|];
      try discriminate; intros [= <-]; left; reflexivity.
  - discriminate.
  - intros [= <-]. right. reflexivity.
Qed.

Lemma take_actions_error : forall l ns e,
  take_actions l ns = Err e -> parser_exit e.
Proof.
  induction l as [|[a v] l IH]; intros ns e; cbn [take_actions]; [discriminate|].
  destruct (take_action a v ns) as [ns1|e1] eqn:H1.
  - apply IH.
  - intros [= <-]. apply (take_action_error _ _ _ _ H1).
Qed.

Lemma consume_error n : forall args ns extras e,
  (List.length args <= n)%nat ->
  consume arguments args ns extras = Err e -> parser_exit e.
Proof.
  induction n as [|n IH]; intros args ns extras e Hlen.
  { destruct args; [discriminate | cbn in Hlen; lia]. }
  destruct args as [|x rest]; [discriminate|].
  cbn [List.length] in Hlen.
  destruct x as [v|arg_string [[[a|] option_string] explicit_arg]|];
    cbn [consume]; try (apply IH; lia).
  set (chain := match explicit_arg with
                | Some e => explicit_chain arguments a option_string e
                | None => Ok ([], Some a)
                end).
  assert (Hchain : forall e', chain = Err e' -> e' = SystemExit 2).
  { subst chain. destruct explicit_arg as [x|]; [|discriminate].
    intros e'. apply explicit_chain_error. }
  destruct chain as [[l [last|]]|e'].
  - destruct (takes_argument last).
    + destruct rest as [|[v| |] rest'']; try (intros [= <-]; left; reflexivity).
      destruct (take_actions _ ns) as [ns1|e1] eqn:H1.
      * apply IH. cbn in Hlen. lia.
      * intros [= <-]. apply (take_actions_error _ _ _ H1).
    + destruct (take_actions _ ns) as [ns1|e1] eqn:H1.
      * apply IH. lia.
      * intros [= <-]. apply (take_actions_error _ _ _ H1).
  - destruct (take_actions l ns) as [ns1|e1] eqn:H1.
    + apply IH. lia.
    + intros [= <-]. apply (take_actions_error _ _ _ H1).
  - intros [= <-]. left. apply Hchain. reflexivity.
Qed.

Lemma parser_parse_args_error defaults argv e :
  parser_parse_args arguments defaults argv = Err e -> parser_exit e.
Proof.
  unfold parser_parse_args.
  destruct (classify arguments argv) as [args|e'] eqn:Hc.
  - destruct (consume arguments args defaults []) as [[ns [|x extras]]|e'] eqn:Hcons.
    + discriminate.
    + intros [= <-]. left. reflexivity.
    + intros [= <-]. apply (consume_error _ _ _ _ _ (Nat.le_refl _) Hcons).
  - intros [= <-]. left. apply (classify_error _ _ Hc).
Qed.

End ParserErrors.



(** ** Options that take an integer *)

Lemma all_spaces_chars s : all_spaces s = true -> all_chars int_char s = true.
Proof.
  induction s as [|c r IH]; [reflexivity|]. cbn [all_spaces all_chars].
  intros H. apply andb_prop in H as [Hc Hr]. rewrite (IH Hr).
  unfold int_char. rewrite Hc, orb_true_r. reflexivity.
Qed.

Lemma int_digits_chars : forall s acc z,
  int_digits acc s = Some z -> all_chars int_char s = true.
Proof.
  induction s as [|c r IH]; intros acc z; [reflexivity|].
  cbn [int_digits all_chars].
  destruct (is_digit c) eqn:Hd.
  { intros H. rewrite (IH _ _ H). unfold int_char. rewrite Hd. reflexivity. }
  destruct (Ascii.eqb c "_") eqn:Hu.
  - destruct r as [|d r']; [discriminate|].
    destruct (is_digit d) eqn:Hd'; [|discriminate].
    intros H. rewrite (IH acc z).
    + unfold int_char. rewrite Hu, !orb_true_r. reflexivity.
    + cbn [int_digits]. rewrite Hd'. exact H.
  - destruct (all_spaces (String c r)) eqn:Hs; [|discriminate].
    intros _. apply (all_spaces_chars (String c r) Hs).
Qed.

Lemma int_unsigned_chars s z :
  int_unsigned s = Some z -> all_chars int_char s = true.
Proof.
  destruct s as [|c r]; [discriminate|]. cbn [int_unsigned all_chars].
  destruct (is_digit c) eqn:Hd; [|discriminate].
  intros H. rewrite (int_digits_chars _ _ _ H).
  unfold int_char. rewrite Hd. reflexivity.
Qed.

Lemma skip_spaces_chars s :
  all_chars int_char (skip_spaces s) = true -> all_chars int_char s = true.
Proof.
  induction s as [|c r IH]; [reflexivity|]. cbn [skip_spaces].
  destruct (is_space c) eqn:Hc; [|intros H; exact H].
  intros H. cbn [all_chars]. rewrite (IH H).
  unfold int_char. rewrite Hc, orb_true_r. reflexivity.
Qed.

Lemma int_chars s z : int s = Some z -> all_chars int_char s = true.
Proof.
  unfold int. intros H. apply skip_spaces_chars.
  destruct (skip_spaces s) as [|c r]; [reflexivity|].
  destruct (Ascii.eqb_spec c "-") as [->|Hminus].
  { destruct (int_unsigned r) as [v|] eqn:Hr; [|discriminate].
    cbn [all_chars]. rewrite (int_unsigned_chars _ _ Hr). reflexivity. }
  destruct (Ascii.eqb_spec c "+") as [->|Hplus].
  { cbn [all_chars]. rewrite (int_unsigned_chars _ _ H). reflexivity. }
  apply (int_unsigned_chars _ z).
  destruct c as [[] [] [] [] [] [] [] []]; try exact H;
    contradiction.
Qed.



(** ** The forms of the output option *)

Lemma lookup_short_o_attached c r :
  lookup (String "-" (String "o" (String c r))) (_option_string_actions parser) = None.
Proof. reflexivity. Qed.


